(** * react-pixi: the [Stage] embedding component and the reconciliation contract

    A shallow embedding of [src/stage/index.js] (the [Stage] React component
    that owns a canvas and a PIXI [Application]) together with the theorems
    relating it to the natural-language specification.  The fiber renderer
    that [Stage] drives is not part of the embedded source: it enters the
    lifecycle methods as a parameter, and the modules [Scheduler] and
    [Reconciler] model its contract from the specification.

    Conventions.
    - JavaScript values are the inductive [value]; objects that the component
      only passes around (functions, DOM nodes, React elements) are references
      compared by identity.
    - The component's mutable fields, the [window] object and the calls made
      to collaborators (PIXI, the fiber renderer, the console) live in one
      [World]; each lifecycle method is a computation in the monad [M], which
      threads the world and may throw.
    - Every call to a collaborator appends one [event] to the world's trace,
      in program order. *)

From Stdlib Require Import ZArith String List Bool Lia DecimalString.
From stdpp Require Import base option list gmap strings fin_maps.

Local Open Scope string_scope.
Local Open Scope list_scope.

#[local] Set Warnings "-register-all".

(** ** JavaScript values *)

(** Numbers: finite integers and [NaN], the one number that differs from
    itself under [!==].  The component compares, tests and prints numbers and
    never computes with them, so fractions are left out. *)
Inductive number :=
  | NaN
  | Fin (z : Z).

Inductive value :=
  | VUndefined
  | VNull
  | VBool (b : bool)
  | VNum (n : number)
  | VStr (s : string)
  | VRef (r : nat).

#[global] Instance number_eq_dec : EqDecision number.
Proof. solve_decision. Defined.

#[global] Instance value_eq_dec : EqDecision value.
Proof. solve_decision. Defined.

(** [a === b] on numbers. *)
Definition number_strict_eq (a b : number) : bool :=
  match a, b with
  | Fin x, Fin y => bool_decide (x = y)
  | _, _ => false
  end.

(** [a === b]: no coercion, [NaN] differs from itself, references are compared
    by identity. *)
Definition strict_eq (a b : value) : bool :=
  match a, b with
  | VUndefined, VUndefined => true
  | VNull, VNull => true
  | VBool x, VBool y => bool_decide (x = y)
  | VNum x, VNum y => number_strict_eq x y
  | VStr x, VStr y => bool_decide (x = y)
  | VRef x, VRef y => bool_decide (x = y)
  | _, _ => false
  end.

(** [a !== b]. *)
Definition strict_neq (a b : value) : bool := negb (strict_eq a b).

(** Truthiness, as [if (v)], [!v], [a && b] and [c ? x : y] see a value. *)
Definition truthy (v : value) : bool :=
  match v with
  | VUndefined | VNull => false
  | VBool b => b
  | VNum NaN => false
  | VNum (Fin z) => negb (bool_decide (z = 0%Z))
  | VStr s => negb (bool_decide (s = ""))
  | VRef _ => true
  end.

(** [String(n)], as in [n + 'px'], on the numbers of the model: [NaN] and
    the integers, printed with all their decimal digits, which is what
    JavaScript prints for an integer below [10^21] in magnitude; from there
    on JavaScript prints the exponent form, which is not modelled. *)
Definition number_to_string (n : number) : string :=
  match n with
  | NaN => "NaN"
  | Fin z => NilZero.string_of_int (Z.to_int z)
  end.

(** A plain object: own enumerable string-keyed properties. *)
Abbreviation object := (gmap string value).

(** [o[k]]: a missing property reads as [undefined]. *)
Definition get (o : object) (k : string) : value :=
  default VUndefined (o !! k).

(** [Object.keys(o)]. *)
Definition Object_keys (o : object) : list string := (map_to_list o).*1.

(** [{ ...all, [k]: v }]. *)
Definition spread_set (all : object) (k : string) (v : value) : object :=
  <[k := v]> all.

(** ** [getCanvasProps] *)

(** [Object.keys(propTypes)], in declaration order. *)
Definition propTypes_keys : list string :=
  ["width"; "height"; "onMount"; "onUnmount"; "raf";
   "renderOnComponentChange"; "children"; "options"].

Section CanvasProps.

(** [Object.keys(PROPS_DISPLAY_OBJECT)]: the table is imported from
    [../utils/props] and enters as a parameter. *)
Variable PROPS_DISPLAY_OBJECT_keys : list string.

Definition reserved : list string :=
  propTypes_keys ++ PROPS_DISPLAY_OBJECT_keys.

(** [reserved.includes(p)]. *)
Definition includes (l : list string) (p : string) : bool :=
  bool_decide (p ∈ l).

Definition getCanvasProps (props : object) : object :=
  foldl (fun all prop => spread_set all prop (get props prop)) ∅
    (List.filter (fun p => negb (includes reserved p)) (Object_keys props)).

End CanvasProps.

(** ** The [Stage] component: props *)

(** The [options] prop: absent, [null], or an object with an identity.  Two
    object literals with the same fields are different objects. *)
Inductive optionsProp :=
  | OptUndefined
  | OptNull
  | OptObject (oid : nat) (fields : object).

(** [this.props], typed by [propTypes]; the six props of [defaultProps] are
    always present, [children] and [options] may be [undefined]. *)
Record Props := mkProps {
  width : number;
  height : number;
  onMount : nat;
  onUnmount : nat;
  raf : bool;
  renderOnComponentChange : bool;
  children : value;
  options : optionsProp;
}.

(** [noop], the default of [onMount] and [onUnmount]. *)
Definition noop : nat := 0.

(** The props of a [Stage] rendered with only [children] and [options]:
    the six others come from [defaultProps]. *)
Definition defaultProps (children : value) (options : optionsProp) : Props :=
  {| width := Fin 800; height := Fin 600;
     onMount := noop; onUnmount := noop;
     raf := true; renderOnComponentChange := true;
     children := children; options := options |}.

(** [options?.k]. *)
Definition opt_chain (o : optionsProp) (k : string) : value :=
  match o with
  | OptObject _ f => get f k
  | OptUndefined | OptNull => VUndefined
  end.

(** [a !== b] on the [options] prop: by identity. *)
Definition options_strict_neq (a b : optionsProp) : bool :=
  match a, b with
  | OptUndefined, OptUndefined => false
  | OptNull, OptNull => false
  | OptObject i _, OptObject j _ => negb (bool_decide (i = j))
  | _, _ => true
  end.

(** [{ ...base, ...options }]: spreading [undefined] or [null] adds nothing. *)
Definition spread_options (base : object) (o : optionsProp) : object :=
  match o with
  | OptObject _ f => f ∪ base
  | OptUndefined | OptNull => base
  end.

Definition hasAutoDensity (dens : value) : bool := strict_neq dens (VBool false).

Definition REQUEST_RENDER : string := "__REACT_PIXI_REQUEST_RENDER__".

(** ** The world *)

(** The two arrow-function fields of an instance, used as listeners. *)
Inductive fn :=
  | RenderStageOf (inst : nat)
  | UpdateSizeOf (inst : nat)
  | ForeignFn (r : nat).

#[global] Instance fn_eq_dec : EqDecision fn.
Proof. solve_decision. Defined.

(** What [getChildren] and [componentWillUnmount] hand to the fiber renderer:
    [<AppProvider value={this.app}>{children}</AppProvider>] or [null]. *)
Inductive element :=
  | ENull
  | EAppProvider (app : option nat) (children : value).

Inductive method :=
  | MUpdateSize
  | MRenderStage.

(** Calls to collaborators in program order, and the entry of the two
    listener methods ([Invoke], which is bookkeeping and no effect).  The
    collaborators are opaque: a call is recorded with its arguments and
    returns; [onMount] and [onUnmount] are the embedder's code and are taken
    to return without re-entering the component.  [DispatchEvent] is an event
    sent on [window], which the component never does itself, and
    [CallListener] the call of a listener that is not one of the two arrow
    functions of this instance. *)
Inductive event :=
  | NewApplication (app : nat) (config : object)
  | TickerStart
  | TickerStop
  | CreateContainer (stage root : nat)
  | UpdateContainer (el : element) (root : option nat)
  | InjectDevtools
  | CallOnMount (f app : nat)
  | CallOnUnmount (f : nat) (app : option nat)
  | MatchMedia (mq : nat)
  | MqAddListener (mq : nat) (f : fn)
  | MqRemoveListener (mq : nat) (f : fn)
  | AddEventListener (name : string) (f : fn)
  | RemoveEventListener (name : string) (f : fn)
  | InteractionDestroy (im : nat)
  | NewInteractionManager (im renderer : nat)
  | Resize (w h : number)
  | RendererRender (stage : nat)
  | ConsoleError (v : value)
  | AppDestroy (app : nat)
  | DispatchEvent (name : string)
  | CallListener (f : fn)
  | Invoke (m : method).

#[global] Instance element_eq_dec : EqDecision element.
Proof. solve_decision. Defined.

#[global] Instance method_eq_dec : EqDecision method.
Proof. solve_decision. Defined.

#[global] Instance event_eq_dec : EqDecision event.
Proof. solve_decision. Defined.

(** The PIXI [Application] held in [this.app], as far as the component reads
    or writes it.  A written field holds the last value the component gave
    it, [None] while PIXI's own initial value stands. *)
Record Application := mkApp {
  app_id : nat;
  app_config : object;
  app_stage : nat;
  ticker_autoStart : option bool;
  ticker_started : option bool;
  renderer_id : nat;
  renderer_resolution : option value;
  renderer_size : option (number * number);
  interaction : nat;
  style_width : option string;
  style_height : option string;
  destroyed : bool;
}.

(** [window]: the device pixel ratio, whether [window.matchMedia] exists, and
    the registered event listeners. *)
Record Window := mkWindow {
  devicePixelRatio : value;
  matchMedia : bool;
  listeners : list (string * fn);
}.

(** The instance fields of a [Stage]; [self] is the identity of the instance,
    which its two arrow functions carry. *)
Record Stage := mkStage {
  self : nat;
  props : Props;
  _canvas : value;
  _mediaQuery : option nat;
  app : option Application;
  mountNode : option nat;
}.

Record World := mkWorld {
  this : Stage;
  window : Window;
  trace : list event;
  next_ref : nat;
}.

(** A freshly constructed instance, before [componentDidMount]. *)
Definition new_Stage (self : nat) (p : Props) (canvas : value) : Stage :=
  {| self := self; props := p; _canvas := canvas; _mediaQuery := None;
     app := None; mountNode := None |}.

(** ** The monad of lifecycle methods: state and exceptions *)

Inductive exn :=
  | TypeError (msg : string).

Inductive outcome (A : Type) :=
  | Ok (a : A) (w : World)
  | Throw (e : exn) (w : World).
Arguments Ok {A} a w.
Arguments Throw {A} e w.

Definition M (A : Type) : Type := World -> outcome A.

#[global] Instance M_ret : MRet M := fun A a w => Ok a w.

#[global] Instance M_bind : MBind M := fun A B k m w =>
  match m w with
  | Ok a w' => k a w'
  | Throw e w' => Throw e w'
  end.

Definition throw {A} (e : exn) : M A := fun w => Throw e w.

(** The world an outcome ends in, thrown or not. *)
Definition final {A} (o : outcome A) : World :=
  match o with
  | Ok _ w => w
  | Throw _ w => w
  end.

Definition returns {A} (o : outcome A) : bool :=
  match o with
  | Ok _ _ => true
  | Throw _ _ => false
  end.

Definition read {A} (f : World -> A) : M A := fun w => Ok (f w) w.
Definition modify (f : World -> World) : M unit := fun w => Ok tt (f w).

Definition emit (e : event) : M unit :=
  modify (fun w => {| this := this w; window := window w;
                      trace := trace w ++ [e]; next_ref := next_ref w |}).

(** A new object identity. *)
Definition fresh : M nat := fun w =>
  Ok (next_ref w)
     {| this := this w; window := window w; trace := trace w;
        next_ref := S (next_ref w) |}.

Definition set_this (f : Stage -> Stage) : M unit :=
  modify (fun w => {| this := f (this w); window := window w;
                      trace := trace w; next_ref := next_ref w |}).

Definition set_listeners (f : list (string * fn) -> list (string * fn)) : M unit :=
  modify (fun w =>
    {| this := this w;
       window := {| devicePixelRatio := devicePixelRatio (window w);
                    matchMedia := matchMedia (window w);
                    listeners := f (listeners (window w)) |};
       trace := trace w; next_ref := next_ref w |}).

(** [if (c) { body }]. *)
Definition when (c : bool) (body : M unit) : M unit :=
  if c then body else mret tt.

(** [this.app.], which throws when [this.app] is [null]. *)
Definition this_app : M Application := fun w =>
  match app (this w) with
  | Some a => Ok a w
  | None => Throw (TypeError "Cannot read properties of null") w
  end.

(** An assignment to a field below [this.app]. *)
Definition set_app (f : Application -> Application) : M unit :=
  _ ← this_app;
  set_this (fun s => {| self := self s; props := props s; _canvas := _canvas s;
                        _mediaQuery := _mediaQuery s; app := f <$> app s;
                        mountNode := mountNode s |}).

(** Field updates of the records above. *)
Definition with_app (o : option Application) (s : Stage) : Stage :=
  {| self := self s; props := props s; _canvas := _canvas s;
     _mediaQuery := _mediaQuery s; app := o; mountNode := mountNode s |}.

Definition with_mountNode (r : option nat) (s : Stage) : Stage :=
  {| self := self s; props := props s; _canvas := _canvas s;
     _mediaQuery := _mediaQuery s; app := app s; mountNode := r |}.

Definition with_mediaQuery (q : option nat) (s : Stage) : Stage :=
  {| self := self s; props := props s; _canvas := _canvas s;
     _mediaQuery := q; app := app s; mountNode := mountNode s |}.

Definition with_props (p : Props) (s : Stage) : Stage :=
  {| self := self s; props := p; _canvas := _canvas s;
     _mediaQuery := _mediaQuery s; app := app s; mountNode := mountNode s |}.

Definition with_ticker_autoStart (b : bool) (a : Application) : Application :=
  mkApp (app_id a) (app_config a) (app_stage a) (Some b) (ticker_started a)
        (renderer_id a) (renderer_resolution a) (renderer_size a)
        (interaction a) (style_width a) (style_height a) (destroyed a).

Definition with_ticker_started (b : bool) (a : Application) : Application :=
  mkApp (app_id a) (app_config a) (app_stage a) (ticker_autoStart a) (Some b)
        (renderer_id a) (renderer_resolution a) (renderer_size a)
        (interaction a) (style_width a) (style_height a) (destroyed a).

Definition with_resolution (v : value) (a : Application) : Application :=
  mkApp (app_id a) (app_config a) (app_stage a) (ticker_autoStart a)
        (ticker_started a) (renderer_id a) (Some v) (renderer_size a)
        (interaction a) (style_width a) (style_height a) (destroyed a).

Definition with_size (w h : number) (a : Application) : Application :=
  mkApp (app_id a) (app_config a) (app_stage a) (ticker_autoStart a)
        (ticker_started a) (renderer_id a) (renderer_resolution a)
        (Some (w, h)) (interaction a) (style_width a) (style_height a)
        (destroyed a).

Definition with_interaction (im : nat) (a : Application) : Application :=
  mkApp (app_id a) (app_config a) (app_stage a) (ticker_autoStart a)
        (ticker_started a) (renderer_id a) (renderer_resolution a)
        (renderer_size a) im (style_width a) (style_height a) (destroyed a).

Definition with_style_width (s : string) (a : Application) : Application :=
  mkApp (app_id a) (app_config a) (app_stage a) (ticker_autoStart a)
        (ticker_started a) (renderer_id a) (renderer_resolution a)
        (renderer_size a) (interaction a) (Some s) (style_height a)
        (destroyed a).

Definition with_style_height (s : string) (a : Application) : Application :=
  mkApp (app_id a) (app_config a) (app_stage a) (ticker_autoStart a)
        (ticker_started a) (renderer_id a) (renderer_resolution a)
        (renderer_size a) (interaction a) (style_width a) (Some s)
        (destroyed a).

Definition with_destroyed (a : Application) : Application :=
  mkApp (app_id a) (app_config a) (app_stage a) (ticker_autoStart a)
        (ticker_started a) (renderer_id a) (renderer_resolution a)
        (renderer_size a) (interaction a) (style_width a) (style_height a)
        true.

(** [window.addEventListener]: a listener already registered for the event
    is not registered twice. *)
Definition add_listener (l : string * fn) (ls : list (string * fn)) :
    list (string * fn) :=
  if bool_decide (l ∈ ls) then ls else ls ++ [l].

(** [window.removeEventListener]: nothing happens when it is not there. *)
Definition remove_listener (l : string * fn) (ls : list (string * fn)) :
    list (string * fn) :=
  List.filter (fun x => negb (bool_decide (x = l))) ls.

(** ** The methods of [Stage] *)

(** [new Application(config)]: PIXI allocates the application, its stage, its
    renderer and the renderer's interaction plugin. *)
Definition new_Application (config : object) : M Application :=
  id ← fresh;
  stage ← fresh;
  renderer ← fresh;
  im ← fresh;
  emit (NewApplication id config);;
  mret (mkApp id config stage None None renderer None None im None None false).

(** [this.app.ticker[started ? 'start' : 'stop']()]. *)
Definition ticker (started : bool) : M unit :=
  _ ← this_app;
  emit (if started then TickerStart else TickerStop);;
  set_app (with_ticker_started started).

Definition resetInteractionManager : M unit :=
  a ← this_app;
  emit (InteractionDestroy (interaction a));;
  im ← fresh;
  emit (NewInteractionManager im (renderer_id a));;
  set_app (with_interaction im).

Definition updateSize : M unit :=
  emit (Invoke MUpdateSize);;
  p ← read (fun w => props (this w));
  when (negb (truthy (opt_chain (options p) "resolution")))
    (dpr ← read (fun w => devicePixelRatio (window w));
     set_app (with_resolution dpr);;
     resetInteractionManager);;
  _ ← this_app;
  emit (Resize (width p) (height p));;
  set_app (with_size (width p) (height p));;
  when (hasAutoDensity (opt_chain (options p) "autoDensity"))
    (set_app (with_style_width (number_to_string (width p) +:+ "px"));;
     set_app (with_style_height (number_to_string (height p) +:+ "px"))).

Definition renderStage : M unit :=
  emit (Invoke MRenderStage);;
  p ← read (fun w => props (this w));
  when (negb (raf p) && renderOnComponentChange p)
    (a ← this_app;
     emit (RendererRender (app_stage a))).

Definition getChildren : M element :=
  p ← read (fun w => props (this w));
  a ← read (fun w => app (this w));
  mret (EAppProvider (app_id <$> a) (children p)).

(** The object literal passed to [new Application]. *)
Definition application_config (p : Props) (canvas : value) : object :=
  <["autoDensity" := VBool false]>
    (spread_options
       (<["view" := canvas]>
          (<["height" := VNum (height p)]>
             (<["width" := VNum (width p)]> ∅)))
       (options p)).

Section Fiber.

(** [PixiFiber.updateContainer(element, container, this)]: the fiber renderer
    is imported from [../reconciler]; it enters the three lifecycle methods
    that call it as a parameter. *)
Variable updateContainer : element -> option nat -> M unit.

Definition componentDidMount_with : M unit :=
  p ← read (fun w => props (this w));
  canvas ← read (fun w => _canvas (this w));
  a ← new_Application (application_config p canvas);
  set_this (with_app (Some a));;
  set_app (with_ticker_autoStart false);;
  ticker (raf p);;
  root ← fresh;
  emit (CreateContainer (app_stage a) root);;
  set_this (with_mountNode (Some root));;
  el ← getChildren;
  node ← read (fun w => mountNode (this w));
  updateContainer el node;;
  emit InjectDevtools;;
  emit (CallOnMount (onMount p) (app_id a));;
  me ← read (fun w => self (this w));
  mm ← read (fun w => matchMedia (window w));
  when (hasAutoDensity (opt_chain (options p) "autoDensity") && mm
        && negb (truthy (opt_chain (options p) "resolution")))
    (mq ← fresh;
     emit (MatchMedia mq);;
     set_this (with_mediaQuery (Some mq));;
     emit (MqAddListener mq (UpdateSizeOf me)));;
  when (renderOnComponentChange p && negb (raf p))
    (emit (AddEventListener REQUEST_RENDER (RenderStageOf me));;
     set_listeners (add_listener (REQUEST_RENDER, RenderStageOf me)));;
  updateSize;;
  renderStage.

(** [o.k] where [o] is the [options] prop, without [?.]: a [TypeError] when
    [o] is [undefined] or [null]. *)
Definition member (o : optionsProp) (k : string) : M value :=
  match o with
  | OptObject _ f => mret (get f k)
  | OptUndefined => throw (TypeError "Cannot read properties of undefined")
  | OptNull => throw (TypeError "Cannot read properties of null")
  end.

(** [a !== b] on two numbers. *)
Definition number_strict_neq (a b : number) : bool := negb (number_strict_eq a b).

Definition componentDidUpdate_with (prevProps : Props) : M unit :=
  p ← read (fun w => props (this w));
  (* update resolution *)
  changed ←
    (if truthy (opt_chain (options p) "resolution")
     then prev ← member (options prevProps) "resolution";
          mret (strict_neq prev (opt_chain (options p) "resolution"))
     else mret false);
  when changed
    (_ ← this_app;
     r ← member (options p) "resolution";
     set_app (with_resolution r);;
     resetInteractionManager);;
  (* update size *)
  when (number_strict_neq (height prevProps) (height p)
        || number_strict_neq (width prevProps) (width p)
        || strict_neq (opt_chain (options prevProps) "resolution")
                      (opt_chain (options p) "resolution"))
    updateSize;;
  (* handle raf change *)
  when (negb (bool_decide (raf prevProps = raf p)))
    (ticker (raf p));;
  (* flush fiber *)
  el ← getChildren;
  node ← read (fun w => mountNode (this w));
  updateContainer el node;;
  when (number_strict_neq (width prevProps) (width p)
        || number_strict_neq (height prevProps) (height p)
        || negb (bool_decide (raf prevProps = raf p))
        || negb (bool_decide (renderOnComponentChange prevProps
                              = renderOnComponentChange p))
        || options_strict_neq (options prevProps) (options p))
    renderStage.

Definition componentDidCatch (error errorInfo : value) : M unit :=
  emit (ConsoleError (VStr "Error occurred in `Stage`."));;
  emit (ConsoleError error);;
  emit (ConsoleError errorInfo).

Definition componentWillUnmount_with : M unit :=
  p ← read (fun w => props (this w));
  a ← read (fun w => app (this w));
  emit (CallOnUnmount (onUnmount p) (app_id <$> a));;
  me ← read (fun w => self (this w));
  emit (RemoveEventListener REQUEST_RENDER (RenderStageOf me));;
  set_listeners (remove_listener (REQUEST_RENDER, RenderStageOf me));;
  node ← read (fun w => mountNode (this w));
  updateContainer ENull node;;
  mq ← read (fun w => _mediaQuery (this w));
  match mq with
  | Some q =>
      emit (MqRemoveListener q (UpdateSizeOf me));;
      set_this (with_mediaQuery None)
  | None => mret tt
  end;;
  renderStage;;
  a ← this_app;
  emit (AppDestroy (app_id a));;
  set_app with_destroyed.

End Fiber.

(** The fiber renderer taken as the other collaborators are: the call is
    recorded with its arguments and returns, without calling back into the
    component. *)
Definition call_updateContainer (el : element) (root : option nat) : M unit :=
  emit (UpdateContainer el root).

Definition componentDidMount : M unit :=
  componentDidMount_with call_updateContainer.

Definition componentDidUpdate (prevProps : Props) : M unit :=
  componentDidUpdate_with call_updateContainer prevProps.

Definition componentWillUnmount : M unit :=
  componentWillUnmount_with call_updateContainer.

(** ** React driving the component *)

(** The world in which React has constructed the instance and rendered its
    canvas, just before [componentDidMount]. *)
Definition initial_World (me : nat) (p : Props) (canvas : value)
    (win : Window) (next : nat) : World :=
  {| this := new_Stage me p canvas; window := win; trace := [];
     next_ref := next |}.

(** A re-render with new props: React replaces [this.props] and calls
    [componentDidUpdate] with the previous ones. *)
Definition update_with (updateContainer : element -> option nat -> M unit)
    (newProps : Props) : M unit :=
  prevProps ← read (fun w => props (this w));
  set_this (with_props newProps);;
  componentDidUpdate_with updateContainer prevProps.

Definition update (newProps : Props) : M unit :=
  update_with call_updateContainer newProps.

(** A sequence of re-renders; a throw ends it. *)
Fixpoint updates (ps : list Props) : M unit :=
  match ps with
  | [] => mret tt
  | p :: ps' => update p;; updates ps'
  end.

(** The same with the fiber renderer [updateContainer]. *)
Fixpoint updates_with (updateContainer : element -> option nat -> M unit)
    (ps : list Props) : M unit :=
  match ps with
  | [] => mret tt
  | p :: ps' =>
      update_with updateContainer p;; updates_with updateContainer ps'
  end.

(** ** Events on [window] *)

(** A listener that throws does not stop the sender: the exception is
    reported and the next listener is called. *)
Definition catch (m : M unit) : M unit := fun w =>
  match m w with
  | Ok _ w' => Ok tt w'
  | Throw _ w' => Ok tt w'
  end.

(** The call of a registered listener.  The two arrow functions of this
    instance run their method; every other function is the code of others
    and is recorded as a call that returns. *)
Definition call_listener (f : fn) : M unit :=
  me ← read (fun w => self (this w));
  match f with
  | RenderStageOf i =>
      if bool_decide (i = me) then catch renderStage
      else emit (CallListener f)
  | UpdateSizeOf i =>
      if bool_decide (i = me) then catch updateSize
      else emit (CallListener f)
  | ForeignFn _ => emit (CallListener f)
  end.

Fixpoint for_each {A} (f : A -> M unit) (l : list A) : M unit :=
  match l with
  | [] => mret tt
  | x :: l' => f x;; for_each f l'
  end.

(** [window.dispatchEvent(new CustomEvent(name))]: the listeners registered
    for [name] when the event is sent are called in the order of their
    registration, before [dispatchEvent] returns. *)
Definition dispatchEvent (name : string) : M unit :=
  emit (DispatchEvent name);;
  ls ← read (fun w => listeners (window w));
  for_each call_listener
    (List.filter (fun l => bool_decide (l.1 = name)) ls).*2.

(** ** The scheduling coordinator *)

(** The entry of the fiber renderer that [Stage] calls and the redraw
    request it answers with are not part of the embedded source; their
    contract is modelled here from sections 4.4 and 9 of the
    specification. *)
Module Scheduler.

(** Modelled from the spec: the redraw-request signal of section 4.4 (the
    source of the renderer is missing).  By section 9 the signal is a
    process-wide event channel, the [__REACT_PIXI_REQUEST_RENDER__] event of
    [window] for which [componentDidMount] registers [renderStage]. *)
Definition requestExternalRedraw : M unit := dispatchEvent REQUEST_RENDER.

(** Modelled from the spec: a synchronous commit of section 4.4: the caller
    blocks until the tree is committed, and the signal is fired once after
    the commit completes.  The commit itself is the call recorded as
    [UpdateContainer]; what it does to the host tree is the matter of module
    [Reconciler]. *)
Definition updateContainer (el : element) (root : option nat) : M unit :=
  emit (UpdateContainer el root);;
  requestExternalRedraw.

End Scheduler.

(** ** The reconciliation core *)

(** The fiber renderer ([PixiFiber], imported from [../reconciler]) is the
    part of the repository that turns descriptor trees into host instances.
    Its contract is modelled here from sections 3, 4.1, 4.2 and 4.3 of the
    specification. *)
Module Reconciler.

(** Modelled from the spec: the Descriptor Node of section 3 (the source of
    the renderer is missing): kind, props, optional key, ordered children. *)
Inductive Descriptor :=
  | Desc (kind : string) (props : object) (key : option string)
         (children : list Descriptor).

(** Modelled from the spec: the Host Instance of section 3.  The parent
    back-reference is the enclosing node of the tree; the instance also
    remembers the key it was committed under, which is what the next pass
    matches old children by. *)
Inductive HostInstance :=
  | Inst (kind : string) (committedProps : object) (nativeHandle : nat)
         (key : option string) (children : list HostInstance).

Definition kind_of (h : HostInstance) : string :=
  match h with Inst k _ _ _ _ => k end.
Definition committedProps (h : HostInstance) : object :=
  match h with Inst _ p _ _ _ => p end.
Definition nativeHandle (h : HostInstance) : nat :=
  match h with Inst _ _ n _ _ => n end.
Definition key_of (h : HostInstance) : option string :=
  match h with Inst _ _ _ k _ => k end.
Definition children_of (h : HostInstance) : list HostInstance :=
  match h with Inst _ _ _ _ c => c end.

Definition desc_kind (d : Descriptor) : string :=
  match d with Desc k _ _ _ => k end.
Definition desc_props (d : Descriptor) : object :=
  match d with Desc _ p _ _ => p end.
Definition desc_key (d : Descriptor) : option string :=
  match d with Desc _ _ k _ => k end.
Definition desc_children (d : Descriptor) : list Descriptor :=
  match d with Desc _ _ _ c => c end.

(** Modelled from the spec: one entry of the Node Adapter Table of section
    4.1.  The engine-side work of an adapter is recorded as a [call]; what
    the table itself decides is which kinds exist and which property names
    a kind recognizes. *)
Record Adapter := mkAdapter { recognizes : string -> bool }.

(** Modelled from the spec: the five capabilities of an adapter of section
    4.1, as the calls the engine makes; [ApplyProp] with [None] resets a
    property to its default, [AttachChild] with [None] appends. *)
Inductive call :=
  | Create (kind : string) (initialProps : object) (handle : nat)
  | ApplyProp (handle : nat) (name : string) (v : option value)
  | AttachChild (parent child : nat) (before : option nat)
  | DetachChild (parent child : nat)
  | Dispose (handle : nat).

(** Modelled from the spec: the two adapter errors of section 7. *)
Inductive error :=
  | UnknownNodeKindError (kind : string)
  | UnknownPropertyError (kind name : string).

(** Modelled from the spec: the engine's state during a commit: the next
    free native handle, the adapter calls made so far and the aggregated
    errors of section 7. *)
Record Engine := mkEngine {
  next_handle : nat;
  calls : list call;
  errors : list error;
}.

Definition E (A : Type) : Type := Engine -> A * Engine.

#[global] Instance E_ret : MRet E := fun A a s => (a, s).
#[global] Instance E_bind : MBind E := fun A B k m s =>
  let (a, s') := m s in k a s'.

Definition log (cs : list call) : E unit := fun s =>
  (tt, mkEngine (next_handle s) (calls s ++ cs) (errors s)).

Definition fail (e : error) : E unit := fun s =>
  (tt, mkEngine (next_handle s) (calls s) (errors s ++ [e])).

Definition alloc : E nat := fun s =>
  (next_handle s, mkEngine (S (next_handle s)) (calls s) (errors s)).

(** Modelled from the spec: [applyProps] of section 4.1.  The keys on which
    [prev] and [next] differ, each with its new value ([None]: present
    before, absent now, so reset to the default). *)
Definition prop_changes (prev next : object) : list (string * option value) :=
  map_to_list
    (merge (fun a b => if bool_decide (a = b) then None else Some b)
           prev next).

(** Modelled from the spec: the property snapshot of section 3 once the
    change [c] has been applied. *)
Definition applied_change (snapshot : object) (c : string * option value) :
    object :=
  match c.2 with
  | Some v => <[c.1 := v]> snapshot
  | None => base.delete c.1 snapshot
  end.

(** Modelled from the spec: one differing key of [applyProps].  A name the
    kind recognizes is applied and enters the snapshot; any other name is an
    [UnknownPropertyError], logged and not fatal, and the property is
    ignored: nothing is applied and the snapshot stays as it is. *)
Definition apply_one (ad : Adapter) (kind : string) (h : nat)
    (snapshot : object) (c : string * option value) : E object :=
  if recognizes ad c.1
  then log [ApplyProp h c.1 c.2];; mret (applied_change snapshot c)
  else fail (UnknownPropertyError kind c.1);; mret snapshot.

Fixpoint each {A} (f : A -> E unit) (l : list A) : E unit :=
  match l with
  | [] => mret tt
  | x :: l' => f x;; each f l'
  end.

Fixpoint fold_each {A B} (f : B -> A -> E B) (b : B) (l : list A) : E B :=
  match l with
  | [] => mret b
  | x :: l' => b' ← f b x; fold_each f b' l'
  end.

(** Modelled from the spec: [applyProps] of section 4.1 applies only the
    differing keys; it returns the last-applied property snapshot, which
    starts as [prev], the snapshot of the instance. *)
Definition applyProps (ad : Adapter) (kind : string) (h : nat)
    (prev next : object) : E object :=
  fold_each (apply_one ad kind h) prev (prop_changes prev next).

(** Modelled from the spec: disposal of section 4.2, depth-first, children
    before the node itself. *)
Fixpoint dispose_calls (h : HostInstance) : list call :=
  match h with
  | Inst _ _ n _ cs => flat_map dispose_calls cs ++ [Dispose n]
  end.

(** Modelled from the spec: case 2 of section 4.3, delete: detach from the
    parent, then dispose the subtree. *)
Definition delete (parent : nat) (h : HostInstance) : E unit :=
  log (DetachChild parent (nativeHandle h) :: dispose_calls h).

(** Modelled from the spec: the matching of children of section 4.3.  A
    keyed new child takes the first old child with that key that no earlier
    new child took; an unkeyed new child takes the old child at its own
    index when that one is unkeyed too. *)
Fixpoint find_keyed (k : string) (olds : list HostInstance)
    (used : list nat) (j : nat) : option nat :=
  match olds with
  | [] => None
  | o :: olds' =>
      if bool_decide (key_of o = Some k) && negb (bool_decide (j ∈ used))
      then Some j
      else find_keyed k olds' used (S j)
  end.

Definition match_one (olds : list HostInstance) (used : list nat) (i : nat)
    (k : option string) : option nat :=
  match k with
  | Some k => find_keyed k olds used 0
  | None =>
      match olds !! i with
      | Some (Inst _ _ _ None _) => Some i
      | Some (Inst _ _ _ (Some _) _) | None => None
      end
  end.

Fixpoint matching (olds : list HostInstance) (used : list nat) (i : nat)
    (keys : list (option string)) : list (option nat) :=
  match keys with
  | [] => []
  | k :: keys' =>
      let m := match_one olds used i k in
      m :: matching olds (from_option (fun j => j :: used) used m) (S i) keys'
  end.

(** Modelled from the spec: the old children no new child took, in old
    order; section 4.3 deletes them before anything is inserted. *)
Definition unmatched (olds : list HostInstance) (ms : list (option nat)) :
    list HostInstance :=
  (List.filter (fun jo => negb (bool_decide (Some jo.1 ∈ ms)))
               (imap (fun j o => (j, o)) olds)).*2.

(** Modelled from the spec: attaching after an update (a move re-attaches
    at the new index without destroying the instance).  Right to left, every
    child that is new or stands at another index than before is put
    immediately before its right neighbour, at the end when it has none. *)
Fixpoint place (parent : nat) (cs : list (HostInstance * bool)) :
    list call * option nat :=
  match cs with
  | [] => ([], None)
  | (c, stays) :: cs' =>
      let (later, before) := place parent cs' in
      (if stays then later
       else later ++ [AttachChild parent (nativeHandle c) before],
       Some (nativeHandle c))
  end.

Section Children.
(** Modelled from the spec: the children of one node, in new-tree order;
    [rec] reconciles one child against the old child it matched. *)
Variable rec : Descriptor -> option HostInstance -> E (option HostInstance).
Variable olds : list HostInstance.

(** A child whose subtree aborted leaves no instance; its siblings go on. *)
Fixpoint reconcile_children (news : list Descriptor)
    (ms : list (option nat)) (i : nat) : E (list (HostInstance * bool)) :=
  match news with
  | [] => mret []
  | n :: news' =>
      let m := mjoin (head ms) in
      let old := m ≫= (fun j => olds !! j) in
      r ← rec n old;
      rs ← reconcile_children news' (tail ms) (S i);
      match r with
      | Some c =>
          let stays :=
            bool_decide (m = Some i)
            && bool_decide (nativeHandle <$> old = Some (nativeHandle c)) in
          mret ((c, stays) :: rs)
      | None => mret rs
      end
  end.
End Children.

Abbreviation AdapterTable := (gmap string Adapter).

(** Modelled from the spec: the per-subtree algorithm of section 4.3, for a
    present new node [N] against the old instance [old] (possibly absent)
    under the native parent [parent].
    - unknown kind: [UnknownNodeKindError], the subtree is aborted;
    - old absent: create;
    - kinds differ: delete, then create at the same position;
    - same kind: update the props key by key, delete the old children that
      are not matched, reconcile the new children in order, re-attach.
    The instance keeps as [committedProps] the snapshot that [applyProps]
    returns. *)
Fixpoint reconcile (table : AdapterTable) (N : Descriptor)
    (old : option HostInstance) (parent : nat) : E (option HostInstance) :=
  match N with
  | Desc kind props key news =>
      let reuse :=
        match old with
        | Some o => if bool_decide (kind_of o = kind) then Some o else None
        | None => None
        end in
      match table !! kind, reuse with
      | None, _ =>
          from_option (delete parent) (mret tt) old;;
          fail (UnknownNodeKindError kind);;
          mret None
      | Some ad, Some (Inst _ oprops h _ olds) =>
          snapshot ← applyProps ad kind h oprops props;
          let ms := matching olds [] 0 (desc_key <$> news) in
          each (delete h) (unmatched olds ms);;
          cs ← reconcile_children
                 (fun n o => reconcile table n o h) olds news ms 0;
          log (place h cs).1;;
          mret (Some (Inst kind snapshot h key cs.*1))
      | Some ad, None =>
          from_option (delete parent) (mret tt) old;;
          h ← alloc;
          log [Create kind props h];;
          cs ← reconcile_children
                 (fun n o => reconcile table n o h) [] news [] 0;
          log ((fun c => AttachChild h (nativeHandle c.1) None) <$> cs);;
          snapshot ← applyProps ad kind h ∅ props;
          mret (Some (Inst kind snapshot h key cs.*1))
      end
  end.

(** Modelled from the spec: the Root Handle of section 3, binding one native
    container to the host tree committed under it. *)
Record RootHandle := mkRoot {
  container : nat;
  current : option HostInstance;
}.

(** Modelled from the spec: a commit of the tree [N] (absent: the empty
    tree) on a root, sections 4.3 and 4.5. *)
Definition commit (table : AdapterTable) (root : RootHandle)
    (N : option Descriptor) : E RootHandle :=
  match N with
  | None =>
      from_option (delete (container root)) (mret tt) (current root);;
      mret (mkRoot (container root) None)
  | Some n =>
      r ← reconcile table n (current root) (container root);
      match r with
      | Some c =>
          when_attach ← mret (negb (bool_decide
            (nativeHandle <$> current root = Some (nativeHandle c))));
          (if when_attach : bool
           then log [AttachChild (container root) (nativeHandle c) None]
           else mret tt);;
          mret (mkRoot (container root) (Some c))
      | None => mret (mkRoot (container root) None)
      end
  end.

(** Modelled from the spec: the life of a root of section 4.5: [mount]
    creates the Root Handle on a native container, with no host tree yet,
    and the trees supplied afterwards are committed one after the other. *)
Definition mount (container : nat) : RootHandle := mkRoot container None.

Fixpoint commits (table : AdapterTable) (root : RootHandle)
    (trees : list (option Descriptor)) : E RootHandle :=
  match trees with
  | [] => mret root
  | N :: trees' => root' ← commit table root N; commits table root' trees'
  end.

Section Mirrors.
(** The relation in which the committed props of an instance of a kind
    stand to the props of its descriptor node. *)
Variable R : string -> object -> object -> bool.

(** The host tree [h] has the shape of the descriptor tree [d]: the same
    kind at every position, the same number of children in the same order,
    and at every position the committed props stand to the props of the
    descriptor node in the relation [R]. *)
Fixpoint mirrors (h : HostInstance) (d : Descriptor) : bool :=
  match h, d with
  | Inst hk hp _ _ hs, Desc k p _ ds =>
      bool_decide (hk = k) && R k hp p
      && (fix all2 (hs : list HostInstance) (ds : list Descriptor) : bool :=
            match hs, ds with
            | [], [] => true
            | h' :: hs', d' :: ds' => mirrors h' d' && all2 hs' ds'
            | _, _ => false
            end) hs ds
  end.

(** [mirrors], child by child. *)
Fixpoint mirrors_list (hs : list HostInstance) (ds : list Descriptor) :
    bool :=
  match hs, ds with
  | [], [] => true
  | h :: hs', d :: ds' => mirrors h d && mirrors_list hs' ds'
  | _, _ => false
  end.

Definition mirrors_tree (h : option HostInstance) (d : option Descriptor) :
    bool :=
  match h, d with
  | None, None => true
  | Some h, Some d => mirrors h d
  | _, _ => false
  end.
End Mirrors.

(** Shallow equality of two property maps: the same names, and under each
    name two values that [eqv] takes for equal. *)
Definition shallow_equal (eqv : value -> value -> bool) (a b : object) :
    bool :=
  forallb (fun k => match a !! k, b !! k with
                    | Some x, Some y => eqv x y
                    | _, _ => false
                    end) (Object_keys a)
  && forallb (fun k => bool_decide (is_Some (a !! k))) (Object_keys b).

(** The equality of the invariant of section 3: per property, by [===]. *)
Definition strictly_equal (kind : string) (committed props : object) : bool :=
  shallow_equal strict_eq committed props.

(** The same map: per property the same value, [NaN] being itself. *)
Definition same_value (kind : string) (committed props : object) : bool :=
  bool_decide (committed = props).

(** The part of the props that the adapter [ad] recognizes. *)
Definition recognized_part (ad : Adapter) (p : object) : object :=
  filter (fun kv => recognizes ad kv.1 = true) p.

(** The committed props are the recognized part of the props. *)
Definition recognized_of (table : AdapterTable) (kind : string)
    (committed props : object) : bool :=
  match table !! kind with
  | Some ad => bool_decide (committed = recognized_part ad props)
  | None => false
  end.

(** A test on the kind and the props of every node of a tree. *)
Fixpoint every_node (P : string -> object -> bool) (d : Descriptor) : bool :=
  match d with
  | Desc k p _ ds => P k p && forallb (every_node P) ds
  end.

(** Every kind of the tree has an adapter. *)
Definition known (table : AdapterTable) : Descriptor -> bool :=
  every_node (fun k _ => bool_decide (is_Some (table !! k))).

(** Every kind of the tree has an adapter that recognizes every property
    name of the node. *)
Definition recognized (table : AdapterTable) : Descriptor -> bool :=
  every_node (fun k p =>
    match table !! k with
    | Some ad => forallb (recognizes ad) (Object_keys p)
    | None => false
    end).

(** No property of the tree is [NaN]. *)
Definition nan_free : Descriptor -> bool :=
  every_node (fun _ p =>
    forallb (fun kv => negb (bool_decide (kv.2 = VNum NaN))) (map_to_list p)).

Definition on_tree (P : Descriptor -> bool) (d : option Descriptor) : bool :=
  from_option P true d.

(** The host tree holds in its snapshots only names that the adapters of
    its kinds recognize. *)
Fixpoint only_recognized (table : AdapterTable) (h : HostInstance) : bool :=
  match h with
  | Inst k cp _ _ cs =>
      match table !! k with
      | Some ad => forallb (recognizes ad) (Object_keys cp)
      | None => true
      end
      && forallb (only_recognized table) cs
  end.

(** What [reconcile] leaves for one new node, given an old instance with
    recognized names only: an instance with recognized names only, and, when
    every kind of the node's tree has an adapter, one that mirrors the tree
    with the recognized part of the props at every position. *)
Definition reconciled (table : AdapterTable) (N : Descriptor)
    (r : option HostInstance) : Prop :=
  from_option (fun h => only_recognized table h = true) True r
  /\ (known table N = true ->
      exists h, r = Some h /\ mirrors (recognized_of table) h N = true).

(** The host tree of a root holds recognized names only. *)
Definition root_recognized (table : AdapterTable) (root : RootHandle) : Prop :=
  from_option (fun h => only_recognized table h = true) True (current root).

(** Induction on descriptor trees, with the hypothesis for every child. *)
Fixpoint Descriptor_rect' (P : Descriptor -> Prop)
    (step : forall k p key ds, Forall P ds -> P (Desc k p key ds))
    (d : Descriptor) : P d :=
  match d with
  | Desc k p key ds =>
      step k p key ds
        ((fix all (ds : list Descriptor) : Forall P ds :=
            match ds with
            | [] => @List.Forall_nil _ P
            | d' :: ds' =>
                @List.Forall_cons _ P d' ds' (Descriptor_rect' P step d')
                  (all ds')
            end) ds)
  end.

(** An adapter that recognizes the names of [names] and no other. *)
Definition adapter_of (names : list string) : Adapter :=
  mkAdapter (fun name => bool_decide (name ∈ names)).

(** An adapter table for examples: containers and sprites. *)
Definition example_table : AdapterTable :=
  <["Container" := adapter_of ["x"; "y"]]>
    (<["Sprite" := adapter_of ["x"; "y"; "texture"]]> ∅).

(** The tree of the partial-failure example of the specification: of three
    siblings, the second has a kind without an adapter. *)
Definition example_tree : Descriptor :=
  Desc "Container" ∅ None
    [Desc "Sprite" ∅ None []; Desc "Mesh" ∅ None []; Desc "Sprite" ∅ None []].

Definition example_root : RootHandle := mount 1.

Definition example_engine : Engine := mkEngine 10 [] [].

End Reconciler.

(** ** Reading traces *)

(** What a computation added to the trace of the world it started in. *)
Definition emitted {A} (m : M A) (w : World) : list event :=
  drop (length (trace w)) (trace (final (m w))).

Definition is_invoke (e : event) : bool :=
  match e with Invoke _ => true | _ => false end.

(** The effects of a trace: the calls to collaborators, without the
    bookkeeping of method entries. *)
Definition effects (t : list event) : list event :=
  List.filter (fun e => negb (is_invoke e)) t.

Definition is_commit (e : event) : bool :=
  match e with UpdateContainer _ _ => true | _ => false end.

Definition is_createContainer (e : event) : bool :=
  match e with CreateContainer _ _ => true | _ => false end.

(** An entry of [renderStage], called by the component or as a listener. *)
Definition is_renderStage_call (e : event) : bool :=
  match e with Invoke MRenderStage => true | _ => false end.

(** The redraw-request signal: the [__REACT_PIXI_REQUEST_RENDER__] event sent
    on [window]. *)
Definition is_signal (e : event) : bool :=
  match e with
  | DispatchEvent name => bool_decide (name = REQUEST_RENDER)
  | _ => false
  end.

Definition is_destroy (e : event) : bool :=
  match e with AppDestroy _ => true | _ => false end.

Definition count (f : event -> bool) (t : list event) : nat :=
  length (List.filter f t).

(** The part of a trace after its last commit; the whole trace when it has
    none. *)
Fixpoint after_last_commit (t : list event) : list event :=
  match t with
  | [] => []
  | e :: t' =>
      if existsb is_commit t' then after_last_commit t'
      else if is_commit e then t' else e :: t'
  end.

(** The stage is mounted: [componentDidMount] has run and left the
    application [a] and the root container [root]. *)
Definition mounted (w : World) (a : Application) (root : nat) : Prop :=
  app (this w) = Some a /\ mountNode (this w) = Some root.

(** ** Frames

    What the parts of [componentDidUpdate] that run before the commit leave
    alone: the instance fields other than the application, the window, the
    identity of the application; and what they add to the trace: no commit,
    no container, no call of [renderStage], no redraw-request signal. *)

Definition quiet (e : event) : bool :=
  negb (is_commit e) && negb (is_renderStage_call e)
  && negb (is_createContainer e) && negb (is_signal e).

Record frame (w w' : World) : Prop := mkFrame {
  frame_self : self (this w') = self (this w);
  frame_props : props (this w') = props (this w);
  frame_canvas : _canvas (this w') = _canvas (this w);
  frame_mediaQuery : _mediaQuery (this w') = _mediaQuery (this w);
  frame_mountNode : mountNode (this w') = mountNode (this w);
  frame_window : window w' = window w;
  frame_app : forall a, app (this w) = Some a ->
    exists a', app (this w') = Some a'
               /\ app_id a' = app_id a /\ app_stage a' = app_stage a
               /\ renderer_id a' = renderer_id a;
  frame_trace : exists es, trace w' = trace w ++ es /\ forallb quiet es = true;
}.

(** From a world with an application, [m] returns and stays within the
    frame. *)
Definition framed {A} (m : M A) : Prop :=
  forall w, is_Some (app (this w)) ->
    exists x w', m w = Ok x w' /\ frame w w'.

(** An update of the application that keeps its identity. *)
Definition same_app (f : Application -> Application) : Prop :=
  forall a, app_id (f a) = app_id a /\ app_stage (f a) = app_stage a
            /\ renderer_id (f a) = renderer_id a.

(** [es] appended to the trace of [w]. *)
Definition add_events (es : list event) (w : World) : World :=
  {| this := this w; window := window w; trace := trace w ++ es;
     next_ref := next_ref w |}.

(** The test that guards the last [renderStage] of [componentDidUpdate]. *)
Definition props_changed (prevProps p : Props) : bool :=
  number_strict_neq (width prevProps) (width p)
  || number_strict_neq (height prevProps) (height p)
  || negb (bool_decide (raf prevProps = raf p))
  || negb (bool_decide (renderOnComponentChange prevProps
                        = renderOnComponentChange p))
  || options_strict_neq (options prevProps) (options p).

(** The [options] prop is [undefined] or [null]. *)
Definition nullish (o : optionsProp) : bool :=
  match o with
  | OptObject _ _ => false
  | OptUndefined | OptNull => true
  end.

(** The calls of [renderStage] that follow the last commit of a trace. *)
Definition renderStage_calls_after_commit (t : list event) : nat :=
  count is_renderStage_call (after_last_commit t).

(** ** Commits and their redraw request

    What a trace must look like for the redraw request to be fired exactly
    once after every commit: the event after a commit is the signal, and the
    signal is sent nowhere else. *)

Fixpoint answered (t : list event) : bool :=
  match t with
  | [] => true
  | e :: t' =>
      if is_commit e
      then match t' with
           | s :: t'' => is_signal s && answered t''
           | [] => false
           end
      else negb (is_signal e) && answered t'
  end.

(** Neither a commit nor a signal. *)
Definition calm (e : event) : bool :=
  negb (is_commit e) && negb (is_signal e).

(** From a world with an application, [m] returns in a world with an
    application and adds neither a commit nor a signal to the trace. *)
Definition steady {A} (m : M A) : Prop :=
  forall w, is_Some (app (this w)) ->
    exists x w' es,
      m w = Ok x w' /\ is_Some (app (this w'))
      /\ trace w' = trace w ++ es /\ forallb calm es = true.

(** [m] returns from [w] in a world with an application, after one commit
    that the signal follows at once, and no other commit or signal. *)
Definition once_at {A} (m : M A) (w : World) : Prop :=
  exists x w' pre c s post,
    m w = Ok x w' /\ is_Some (app (this w'))
    /\ trace w' = trace w ++ pre ++ [c; s] ++ post
    /\ forallb calm pre = true /\ is_commit c = true /\ is_signal s = true
    /\ forallb calm post = true.

Definition commits_once {A} (m : M A) : Prop :=
  forall w, is_Some (app (this w)) -> once_at m w.

(** [m] run from [w] returns after exactly one commit and exactly one
    signal, every commit being answered by the signal. *)
Definition signals_once_after_commit {A} (m : M A) (w : World) : Prop :=
  returns (m w) = true
  /\ count is_commit (emitted m w) = 1
  /\ count is_signal (emitted m w) = 1
  /\ answered (emitted m w) = true.


(** ** A concrete stage

    A 800 by 600 stage that renders on component change ([raf] off), on a
    window with a device pixel ratio of 2; used to run the methods. *)

Definition example_window : Window :=
  {| devicePixelRatio := VNum (Fin 2); matchMedia := true; listeners := [] |}.

Definition example_props (children : value) (options : optionsProp) : Props :=
  {| width := Fin 800; height := Fin 600; onMount := noop; onUnmount := noop;
     raf := false; renderOnComponentChange := true;
     children := children; options := options |}.

Definition example_World : World :=
  initial_World 7 (example_props (VRef 1) OptUndefined) (VRef 2)
                example_window 100.

(** The example after [componentDidMount]. *)
Definition example_mounted : World := final (componentDidMount example_World).

(** The application that [componentDidMount] leaves in the example, under
    the root container [104]. *)
Definition example_app : Application :=
  {| app_id := 100;
     app_config := application_config (example_props (VRef 1) OptUndefined)
                                      (VRef 2);
     app_stage := 101;
     ticker_autoStart := Some false;
     ticker_started := Some false;
     renderer_id := 102;
     renderer_resolution := Some (VNum (Fin 2));
     renderer_size := Some (Fin 800, Fin 600);
     interaction := 106;
     style_width := Some "800px";
     style_height := Some "600px";
     destroyed := false |}.

(** ** Judgements on methods *)

(** [m] leaves the observation [f] of the world as it found it, whether it
    returns or throws. *)
Definition keeps {X A} (f : World -> X) (m : M A) : Prop :=
  forall w, f (final (m w)) = f w.

(** When [m] is run from a world in [P] and returns, it returns in [Q]. *)
Definition hoare {A} (P : World -> Prop) (m : M A) (Q : A -> World -> Prop) :
    Prop :=
  forall w, P w -> forall a w', m w = Ok a w' -> Q a w'.

(** The renderer has the size of the [width] and [height] props. *)
Definition size_synced (w : World) : Prop :=
  exists a, app (this w) = Some a
            /\ renderer_size a
               = Some (width (props (this w)), height (props (this w))).

(** The ticker never starts by itself and runs exactly when [raf] is on. *)
Definition ticker_synced (w : World) : Prop :=
  exists a, app (this w) = Some a
            /\ ticker_autoStart a = Some false
            /\ ticker_started a = Some (raf (props (this w))).

(** The test that guards [updateSize] in [componentDidUpdate]. *)
Definition size_changed (prevProps p : Props) : bool :=
  number_strict_neq (height prevProps) (height p)
  || number_strict_neq (width prevProps) (width p)
  || strict_neq (opt_chain (options prevProps) "resolution")
                (opt_chain (options p) "resolution").

(** The props, and the size and ticker state of the application. *)
Definition sync_obs (w : World) :
    Props * option (option (number * number) * option bool * option bool) :=
  (props (this w),
   (fun a => (renderer_size a, ticker_autoStart a, ticker_started a))
     <$> app (this w)).

(** The calls that belong to mounting, unmounting and error reporting. *)
Definition lifecycle_event (e : event) : bool :=
  match e with
  | NewApplication _ _ | CreateContainer _ _ | InjectDevtools
  | CallOnMount _ _ | CallOnUnmount _ _
  | MatchMedia _ | MqAddListener _ _ | MqRemoveListener _ _
  | AddEventListener _ _ | RemoveEventListener _ _
  | ConsoleError _ | AppDestroy _ => true
  | _ => false
  end.

(** What is settled once a stage is mounted: the instance fields other than
    the props and the application's mutable state, the window, the identity
    and configuration of the application, and the lifecycle calls made. *)
Definition fixed_at_mount (w : World) :=
  (self (this w), _canvas (this w), _mediaQuery (this w), mountNode (this w),
   window w,
   (fun a => (app_id a, app_config a, app_stage a, renderer_id a,
              ticker_autoStart a, destroyed a)) <$> app (this w),
   List.filter lifecycle_event (trace w)).

(** The commit of the children of [p] against [root], with the application
    [a] as the value of the [AppProvider]. *)
Definition commit_of (a : Application) (root : nat) (p : Props) : event :=
  UpdateContainer (EAppProvider (Some (app_id a)) (children p)) (Some root).

(** How many of the re-renders [ps] of a stage whose props were [prevProps]
    run [componentDidUpdate] to its end: those before the first that brings a
    truthy [options.resolution] when the props before it had no [options]. *)
Fixpoint rerenders_before_throw (prevProps : Props) (ps : list Props) : nat :=
  match ps with
  | [] => 0
  | p :: ps' =>
      if truthy (opt_chain (options p) "resolution")
         && nullish (options prevProps)
      then 0
      else S (rerenders_before_throw p ps')
  end.

Definition is_mediaQuery_event (e : event) : bool :=
  match e with
  | MatchMedia _ | MqAddListener _ _ | MqRemoveListener _ _ => true
  | _ => false
  end.

(** The test that guards the media query in [componentDidMount]. *)
Definition watches_pixel_ratio (p : Props) (win : Window) : bool :=
  hasAutoDensity (opt_chain (options p) "autoDensity") && matchMedia win
  && negb (truthy (opt_chain (options p) "resolution")).

Definition is_interaction_event (e : event) : bool :=
  match e with
  | InteractionDestroy _ | NewInteractionManager _ _ => true
  | _ => false
  end.

(** The props, the interaction manager in use and its renderer, the next
    free identity and the interaction events so far. *)
Definition interaction_obs (w : World) :
    Props * option (nat * nat) * nat * list event :=
  (props (this w),
   (fun a => (interaction a, renderer_id a)) <$> app (this w),
   next_ref w,
   List.filter is_interaction_event (trace w)).

(** When a [componentDidUpdate] resets the interaction manager: in its
    "update resolution" block for a new truthy resolution, or in [updateSize]
    when there is no resolution to take. *)
Definition resets_interaction (prevProps p : Props) : bool :=
  (truthy (opt_chain (options p) "resolution")
   && strict_neq (opt_chain (options prevProps) "resolution")
                 (opt_chain (options p) "resolution"))
  || (negb (truthy (opt_chain (options p) "resolution"))
      && size_changed prevProps p).

(** The application without the identity of its interaction manager. *)
Definition app_but_interaction (a : Application) :=
  (app_id a, app_config a, app_stage a, ticker_autoStart a, ticker_started a,
   renderer_id a, renderer_resolution a, renderer_size a, style_width a,
   style_height a, destroyed a).

(** ** [render] and the validators of [options] *)

(** What the component asks of a DOM reference: is it the [window], a canvas
    element, another HTML element, or none of these. *)
Inductive domClass :=
  | TheWindow
  | CanvasElement
  | OtherElement
  | NoElement.

#[global] Instance domClass_eq_dec : EqDecision domClass.
Proof. solve_decision. Defined.

(** [invariant(condition, message)] of fbjs either passes or throws an
    invariant violation with the message. *)
Inductive checked :=
  | Passed
  | InvariantViolation (message : string).

Definition invariant (condition : bool) (message : string) : checked :=
  if condition then Passed else InvariantViolation message.

(** What [render] gives React: [null], a [<canvas>] with attributes, or an
    exception.  The [ref] callback of the canvas, which stores the element in
    [_canvas], is the same on every render and is not among the
    attributes. *)
Inductive rendered :=
  | RenderNull
  | RenderCanvas (attributes : object)
  | RenderThrows (message : string).

(** The [options] prop as a value. *)
Definition options_value (o : optionsProp) : value :=
  match o with
  | OptUndefined => VUndefined
  | OptNull => VNull
  | OptObject oid _ => VRef oid
  end.

(** [this.props] as the object React builds: the declared props over the
    other props [rest] given to [<Stage>]. *)
Definition props_object (p : Props) (rest : object) : object :=
  <["width" := VNum (width p)]>
    (<["height" := VNum (height p)]>
       (<["onMount" := VRef (onMount p)]>
          (<["onUnmount" := VRef (onUnmount p)]>
             (<["raf" := VBool (raf p)]>
                (<["renderOnComponentChange"
                   := VBool (renderOnComponentChange p)]>
                   (<["children" := children p]>
                      (<["options" := options_value (options p)]> rest))))))).

Section Dom.

(** The DOM and the display-object table are outside the component. *)
Variable classOf : nat -> domClass.
Variable typeof_ref : nat -> string.
Variable PROPS_DISPLAY_OBJECT_keys : list string.

(** [el === window]. *)
Definition is_window (el : value) : bool :=
  match el with
  | VRef r => bool_decide (classOf r = TheWindow)
  | _ => false
  end.

(** [el instanceof HTMLElement]; a canvas element is one. *)
Definition instanceof_HTMLElement (el : value) : bool :=
  match el with
  | VRef r =>
      match classOf r with
      | CanvasElement | OtherElement => true
      | TheWindow | NoElement => false
      end
  | _ => false
  end.

(** [el instanceof HTMLCanvasElement]. *)
Definition instanceof_HTMLCanvasElement (el : value) : bool :=
  match el with
  | VRef r => bool_decide (classOf r = CanvasElement)
  | _ => false
  end.

(** [typeof el]. *)
Definition typeof (el : value) : string :=
  match el with
  | VUndefined => "undefined"
  | VNull => "object"
  | VBool _ => "boolean"
  | VNum _ => "number"
  | VStr _ => "string"
  | VRef r => typeof_ref r
  end.

(** The validator of [options.resizeTo] in [propTypes]. *)
Definition validate_resizeTo (props : object) (propName componentName : string) :
    checked :=
  let el := get props propName in
  invariant (negb (is_window el) && negb (instanceof_HTMLElement el))
    ("Invalid prop `resizeTo` of type " +:+ typeof el
     +:+ ", expect `window` or an `HTMLElement`.").

(** The validator of [options.view] in [propTypes]. *)
Definition validate_view (props : object) (propName componentName : string) :
    checked :=
  let el := get props propName in
  if strict_eq el VUndefined then Passed
  else invariant (instanceof_HTMLCanvasElement el)
         ("Invalid prop `view` of type " +:+ typeof el +:+ ", supplied to "
          +:+ componentName +:+ ", expected `<canvas> Element`").

Definition render (p : Props) (rest : object) : rendered :=
  match options p with
  | OptObject _ f =>
      if truthy (get f "view")
      then match invariant (instanceof_HTMLCanvasElement (get f "view"))
                   "options.view needs to be a `HTMLCanvasElement`" with
           | Passed => RenderNull
           | InvariantViolation message => RenderThrows message
           end
      else RenderCanvas
             (getCanvasProps PROPS_DISPLAY_OBJECT_keys (props_object p rest))
  | OptUndefined | OptNull =>
      RenderCanvas
        (getCanvasProps PROPS_DISPLAY_OBJECT_keys (props_object p rest))
  end.

End Dom.

(** A DOM for examples: reference [50] is a canvas element, [51] another
    element, [52] the window. *)
Definition example_classOf (r : nat) : domClass :=
  if bool_decide (r = 50) then CanvasElement
  else if bool_decide (r = 51) then OtherElement
  else if bool_decide (r = 52) then TheWindow
  else NoElement.

(** * Theorems *)

(** ** [getCanvasProps] *)

Lemma foldl_spread_lookup (props : object) (ks : list string) (acc : object)
    (k : string) :
  foldl (fun all prop => spread_set all prop (get props prop)) acc ks !! k
  = if bool_decide (k ∈ ks) then Some (get props k) else acc !! k.
Proof.
  revert acc. induction ks as [|x ks IH]; intros acc; cbn [foldl].
  - rewrite bool_decide_eq_false_2; [done | apply not_elem_of_nil].
  - rewrite IH. unfold spread_set.
    destruct (decide (k ∈ ks)) as [Hin | Hnin].
    + rewrite !bool_decide_eq_true_2; [done | by right | done].
    + rewrite (bool_decide_eq_false_2 (k ∈ ks)) by done.
      destruct (decide (k = x)) as [-> | Hne].
      * rewrite bool_decide_eq_true_2 by left. apply lookup_insert_eq.
      * rewrite bool_decide_eq_false_2.
        -- by apply lookup_insert_ne.
        -- intros Hc. apply elem_of_cons in Hc. tauto.
Qed.

Lemma elem_of_Object_keys (o : object) (k : string) :
  k ∈ Object_keys o <-> is_Some (o !! k).
Proof.
  unfold Object_keys. rewrite list_elem_of_fmap. split.
  - intros [[k' v] [-> Hin]]. apply elem_of_map_to_list in Hin. by exists v.
  - intros [v Hv]. exists (k, v). split; [done |].
    by apply elem_of_map_to_list.
Qed.

(** C8. For every props object, [getCanvasProps] returns exactly the entries
    of the props whose key is neither a key of [propTypes] nor a key of
    [PROPS_DISPLAY_OBJECT], each with its value unchanged; a reserved key is
    never forwarded. *)
Theorem getCanvasProps_spec (PROPS_DISPLAY_OBJECT_keys : list string)
    (props : object) (k : string) :
  getCanvasProps PROPS_DISPLAY_OBJECT_keys props !! k
  = if bool_decide (k ∈ reserved PROPS_DISPLAY_OBJECT_keys) then None
    else props !! k.
Proof.
  unfold getCanvasProps. rewrite foldl_spread_lookup, lookup_empty.
  set (r := reserved PROPS_DISPLAY_OBJECT_keys).
  destruct (decide (k ∈ r)) as [Hr | Hr].
  - rewrite (bool_decide_eq_true_2 (k ∈ r)) by done.
    rewrite bool_decide_eq_false_2; [done |].
    intros Hin. apply list_elem_of_In, filter_In in Hin as [_ Hf].
    unfold includes in Hf. by rewrite bool_decide_eq_true_2 in Hf.
  - rewrite (bool_decide_eq_false_2 (k ∈ r)) by done.
    destruct (props !! k) as [v|] eqn:Hk.
    + rewrite bool_decide_eq_true_2.
      * unfold get. by rewrite Hk.
      * apply list_elem_of_In, filter_In. split.
        -- apply list_elem_of_In, elem_of_Object_keys. by exists v.
        -- unfold includes. by rewrite bool_decide_eq_false_2.
    + rewrite bool_decide_eq_false_2; [done |].
      intros Hin. apply list_elem_of_In, filter_In in Hin as [Hin _].
      apply list_elem_of_In, elem_of_Object_keys in Hin as [v Hv]. congruence.
Qed.

(** ** Symbolic execution of the methods *)

Ltac run :=
  cbv [componentDidCatch componentWillUnmount componentDidMount
       componentWillUnmount_with componentDidMount_with call_updateContainer
       renderStage updateSize resetInteractionManager ticker getChildren
       new_Application member set_app this_app when emit fresh set_this
       set_listeners read modify throw mbind M_bind mret M_ret final returns
       this window trace next_ref self props _canvas _mediaQuery app mountNode
       width height onMount onUnmount raf renderOnComponentChange children
       options devicePixelRatio matchMedia listeners
       app_id app_config app_stage ticker_autoStart ticker_started renderer_id
       renderer_resolution renderer_size interaction style_width style_height
       destroyed
       with_app with_mountNode with_mediaQuery with_props
       with_ticker_autoStart with_ticker_started with_resolution with_size
       with_interaction with_style_width with_style_height with_destroyed
       fmap option_fmap option_map negb andb orb].

Ltac split_atom :=
  match goal with
  | H : truthy ?x = _ |- context [truthy ?x] => rewrite H
  | H : hasAutoDensity ?x = _ |- context [hasAutoDensity ?x] => rewrite H
  | |- context [if truthy ?x then _ else _] => destruct (truthy x) eqn:?
  | |- context [if hasAutoDensity ?x then _ else _] =>
      destruct (hasAutoDensity x) eqn:?
  end.

Ltac exec := run; repeat (split_atom; run).

Ltac open_world w :=
  let p := fresh "p" in
  let win := fresh "win" in
  destruct w as [[? p ? ? ? ?] win ? ?];
  destruct p as [? ? ? ? ? ? ? ?];
  destruct win as [? ? ?].

Lemma hasAutoDensity_false (v : value) :
  hasAutoDensity v = negb (bool_decide (v = VBool false)).
Proof.
  unfold hasAutoDensity, strict_neq. f_equal.
  destruct v as [| |[]| | |]; reflexivity.
Qed.

Lemma effects_app (s t : list event) : effects (s ++ t) = effects s ++ effects t.
Proof. apply List.filter_app. Qed.

Lemma count_app (f : event -> bool) (s t : list event) :
  count f (s ++ t) = count f s + count f t.
Proof. unfold count. by rewrite List.filter_app, length_app. Qed.

Lemma emitted_eq {A} (m : M A) (w : World) (es : list event) :
  trace (final (m w)) = trace w ++ es -> emitted m w = es.
Proof. unfold emitted. intros ->. apply drop_app_length. Qed.

(** ** [componentDidCatch] *)

(** C7. Every error that reaches [componentDidCatch] is written to the
    console: the error and its info are both logged by [console.error], in
    that order, after a headline; nothing else happens and nothing is
    dropped. *)
Theorem componentDidCatch_logs (w : World) (error errorInfo : value) :
  exists w',
    componentDidCatch error errorInfo w = Ok tt w'
    /\ trace w' = trace w ++ [ConsoleError (VStr "Error occurred in `Stage`.");
                              ConsoleError error; ConsoleError errorInfo]
    /\ this w' = this w /\ window w' = window w.
Proof.
  eexists. split; [reflexivity |]. cbn.
  rewrite <- !app_assoc. auto.
Qed.

(** ** [renderStage] *)

(** C10. [renderStage] renders only when [raf] is false and
    [renderOnComponentChange] is true.  In every other configuration, and so
    under the default props, it returns with the component, the window and
    the effects of the trace unchanged. *)
Theorem renderStage_gate :
  (forall w : World,
      ~ (raf (props (this w)) = false
         /\ renderOnComponentChange (props (this w)) = true) ->
      exists w',
        renderStage w = Ok tt w'
        /\ this w' = this w /\ window w' = window w
        /\ next_ref w' = next_ref w
        /\ effects (trace w') = effects (trace w))
  /\ (forall (w : World) ch op,
      props (this w) = defaultProps ch op ->
      exists w',
        renderStage w = Ok tt w'
        /\ this w' = this w /\ window w' = window w
        /\ next_ref w' = next_ref w
        /\ effects (trace w') = effects (trace w))
  /\ (forall (w : World) a,
      raf (props (this w)) = false ->
      renderOnComponentChange (props (this w)) = true ->
      app (this w) = Some a ->
      exists w',
        renderStage w = Ok tt w'
        /\ effects (trace w') = effects (trace w) ++ [RendererRender (app_stage a)]).
Proof.
  assert (Hquiet : forall w : World,
      negb (raf (props (this w))) && renderOnComponentChange (props (this w))
      = false ->
      exists w',
        renderStage w = Ok tt w'
        /\ this w' = this w /\ window w' = window w
        /\ next_ref w' = next_ref w
        /\ effects (trace w') = effects (trace w)).
  { intros w Hc. unfold renderStage, mbind, M_bind, emit, modify, read. cbn.
    rewrite Hc. cbn. eexists. split; [reflexivity |]. cbn.
    rewrite effects_app. cbn. rewrite app_nil_r. auto. }
  split; [| split].
  - intros w Hn. apply Hquiet.
    destruct (raf (props (this w))), (renderOnComponentChange (props (this w)));
      try reflexivity.
    exfalso. by apply Hn.
  - intros w ch op Hp. apply Hquiet. by rewrite Hp.
  - intros w a Hraf Hroc Ha.
    open_world w. cbn in Hraf, Hroc, Ha. subst. run.
    eexists. split; [reflexivity |]. cbn.
    rewrite !effects_app. cbn. by rewrite app_nil_r.
Qed.

(** ** [updateSize] and the [Application] options *)

(** C9. The [Application] is constructed with [autoDensity: false] whatever
    the [options] prop holds; still every [updateSize] of a mounted stage
    sets the canvas' CSS width and height to the [width] and [height] props
    in pixels, unless [options.autoDensity] is exactly [false] (so also when
    it is [undefined]), in which case the style is left alone. *)
Theorem autoDensity_forced_off_but_css_sized :
  (forall w : World,
      exists w' a,
        componentDidMount w = Ok tt w'
        /\ app (this w') = Some a
        /\ app_config a !! "autoDensity" = Some (VBool false)
        /\ In (NewApplication (app_id a) (app_config a))
              (emitted componentDidMount w))
  /\ (forall (w : World) a,
      app (this w) = Some a ->
      exists w' a',
        updateSize w = Ok tt w'
        /\ app (this w') = Some a'
        /\ if bool_decide (opt_chain (options (props (this w))) "autoDensity"
                           = VBool false)
           then style_width a' = style_width a
                /\ style_height a' = style_height a
           else style_width a'
                = Some (number_to_string (width (props (this w))) +:+ "px")
                /\ style_height a'
                   = Some (number_to_string (height (props (this w))) +:+ "px")).
Proof.
  split.
  - intros w. open_world w. unfold emitted.
    destruct raf0, renderOnComponentChange0, matchMedia0; exec;
      (do 2 eexists; split; [reflexivity |]; split; [reflexivity |];
       split; [apply lookup_insert_eq |];
       rewrite <- !app_assoc, drop_app_length; cbn; auto).
  - intros w a Ha. open_world w. cbn in Ha. subst.
    cbn [props this options width height].
    rewrite <- (negb_involutive (bool_decide _)), <- hasAutoDensity_false.
    destruct a. exec;
      (do 2 eexists; split; [reflexivity |]; split; [reflexivity |]);
      cbn; auto.
Qed.

(** ** Mounting *)

(** C4. [componentDidMount] returns, and before it does it creates exactly
    one root container, bound to the stage of the application it has just
    constructed, and commits the initial children (wrapped in the
    [AppProvider]) against that root, which is new and so holds no old tree;
    [onMount] is called after this commit.  No other container is created and
    no other commit is made. *)
Theorem mount_creates_root_then_commits (w : World) :
  exists w' a root pre mid post,
    componentDidMount w = Ok tt w'
    /\ mounted w' a root
    /\ next_ref w <= root < next_ref w'
    /\ emitted componentDidMount w
       = pre
         ++ [CreateContainer (app_stage a) root;
             UpdateContainer
               (EAppProvider (Some (app_id a)) (children (props (this w))))
               (Some root)]
         ++ mid
         ++ [CallOnMount (onMount (props (this w))) (app_id a)]
         ++ post
    /\ count is_createContainer (pre ++ mid ++ post) = 0
    /\ count is_commit (pre ++ mid ++ post) = 0.
Proof.
  open_world w. unfold emitted, mounted.
  destruct raf0, renderOnComponentChange0, matchMedia0; exec;
    rewrite <- !app_assoc, drop_app_length;
    (do 3 eexists;
     match goal with
     | |- exists pre mid post, _ /\ _ /\ _ /\ ?es = _ /\ _ =>
         exists (take 2 es), [InjectDevtools]
     end;
     eexists;
     split; [reflexivity |]; split; [split; reflexivity |];
     split; [cbn; lia |]; split; [reflexivity |]; split; reflexivity).
Qed.

(** ** Unmounting *)

(** C2. Unmounting a mounted stage returns after calling [onUnmount], then
    removing the render-request listener, then committing [null] against the
    root container, and only then, as its last action, destroying the
    application; there is no other commit and no other destruction in
    between. *)
Theorem unmount_commits_empty_tree_before_destroy (w : World)
    (a : Application) (root : nat) :
  mounted w a root ->
  exists w' mid,
    componentWillUnmount w = Ok tt w'
    /\ emitted componentWillUnmount w
       = [CallOnUnmount (onUnmount (props (this w))) (Some (app_id a));
          RemoveEventListener REQUEST_RENDER (RenderStageOf (self (this w)));
          UpdateContainer ENull (Some root)]
         ++ mid
         ++ [AppDestroy (app_id a)]
    /\ count is_commit mid = 0
    /\ count is_destroy mid = 0
    /\ destroyed <$> app (this w') = Some true.
Proof.
  intros [Ha Hroot]. open_world w. cbn in Ha, Hroot. subst.
  unfold emitted. destruct a.
  destruct raf0, renderOnComponentChange0, _mediaQuery0 as [q|]; exec;
    rewrite <- !app_assoc, drop_app_length;
    eexists;
    match goal with
    | |- exists mid, _ /\ ?es = _ /\ _ =>
        exists (removelast (drop 3 es))
    end;
    (split; [reflexivity |]; split; [reflexivity |];
     split; [reflexivity |]; split; reflexivity).
Qed.

(** ** Frame rules *)

Lemma frame_refl (w : World) : frame w w.
Proof.
  constructor; try reflexivity.
  - intros a Ha. by exists a.
  - exists []. by rewrite app_nil_r.
Qed.

Lemma frame_trans (w1 w2 w3 : World) : frame w1 w2 -> frame w2 w3 -> frame w1 w3.
Proof.
  intros [S1 P1 C1 Q1 N1 W1 A1 (es1 & T1 & F1)] [S2 P2 C2 Q2 N2 W2 A2 (es2 & T2 & F2)].
  constructor; try congruence.
  - intros a Ha. destruct (A1 a Ha) as (a' & Ha' & I1 & I2 & I3).
    destruct (A2 a' Ha') as (a'' & Ha'' & J1 & J2 & J3).
    exists a''. repeat split; congruence.
  - exists (es1 ++ es2). split.
    + by rewrite T2, T1, app_assoc.
    + rewrite forallb_app. by rewrite F1, F2.
Qed.

Lemma frame_is_Some (w w' : World) :
  frame w w' -> is_Some (app (this w)) -> is_Some (app (this w')).
Proof.
  intros Hf [a Ha]. destruct (frame_app _ _ Hf a Ha) as (a' & Ha' & _).
  by exists a'.
Qed.

Lemma framed_ret {A} (a : A) : framed (mret a).
Proof. intros w _. exists a, w. split; [reflexivity | apply frame_refl]. Qed.

Lemma framed_bind {A B} (m : M A) (k : A -> M B) :
  framed m -> (forall a, framed (k a)) -> framed (m ≫= k).
Proof.
  intros Hm Hk w Hw.
  destruct (Hm w Hw) as (a & w1 & E1 & F1).
  destruct (Hk a w1 (frame_is_Some _ _ F1 Hw)) as (b & w2 & E2 & F2).
  exists b, w2. split.
  - unfold mbind, M_bind. by rewrite E1.
  - by apply frame_trans with w1.
Qed.

Lemma framed_read {A} (f : World -> A) : framed (read f).
Proof. intros w _. exists (f w), w. split; [reflexivity | apply frame_refl]. Qed.

Lemma framed_emit (e : event) : quiet e = true -> framed (emit e).
Proof.
  intros He w _. eexists tt, _. split; [reflexivity |].
  constructor; try reflexivity.
  - intros a Ha. by exists a.
  - exists [e]. split; [reflexivity |]. cbn. by rewrite He.
Qed.

Lemma framed_fresh : framed fresh.
Proof.
  intros w _. eexists _, _. split; [reflexivity |].
  constructor; try reflexivity.
  - intros a Ha. by exists a.
  - exists []. cbn. by rewrite app_nil_r.
Qed.

Lemma framed_this_app : framed this_app.
Proof.
  intros w [a Ha]. exists a, w. split; [| apply frame_refl].
  unfold this_app. by rewrite Ha.
Qed.

Lemma framed_set_app (f : Application -> Application) :
  same_app f -> framed (set_app f).
Proof.
  intros Hf w [a Ha]. eexists tt, _. split.
  - unfold set_app, mbind, M_bind, this_app. rewrite Ha. reflexivity.
  - constructor; try reflexivity.
    + intros a0 Ha0. cbn. rewrite Ha0. cbn. exists (f a0).
      split; [reflexivity | apply Hf].
    + exists []. cbn. by rewrite app_nil_r.
Qed.

Lemma framed_when (c : bool) (m : M unit) : framed m -> framed (when c m).
Proof. destruct c; [done | intros _; apply framed_ret]. Qed.

Lemma framed_member (oid : nat) (f : object) (k : string) :
  framed (member (OptObject oid f) k).
Proof. apply framed_ret. Qed.

Create HintDb frames.
#[local] Hint Resolve framed_ret framed_read framed_fresh framed_this_app
  framed_member framed_when : frames.
#[local] Hint Extern 1 (framed (emit _)) =>
  apply framed_emit; reflexivity : frames.
#[local] Hint Extern 1 (framed (set_app _)) =>
  apply framed_set_app; intros []; repeat split : frames.
#[local] Hint Extern 2 (framed (_ ≫= _)) =>
  apply framed_bind; [| intros ?] : frames.
#[local] Hint Extern 1 (framed (emit (if ?c then _ else _))) =>
  destruct c : frames.

Lemma framed_resetInteractionManager : framed resetInteractionManager.
Proof. unfold resetInteractionManager. auto 10 with frames. Qed.

#[local] Hint Resolve framed_resetInteractionManager : frames.

Lemma framed_updateSize : framed updateSize.
Proof. unfold updateSize. auto 20 with frames. Qed.

Lemma framed_ticker (started : bool) : framed (ticker started).
Proof. unfold ticker. auto 10 with frames. Qed.

#[local] Hint Resolve framed_updateSize framed_ticker : frames.

(** ** [componentDidUpdate], step by step *)

Lemma bind_Ok {A B} (m : M A) (k : A -> M B) (w w' : World) (a : A) :
  m w = Ok a w' -> (m ≫= k) w = k a w'.
Proof. unfold mbind, M_bind. by intros ->. Qed.

Lemma bind_Throw {A B} (m : M A) (k : A -> M B) (w w' : World) (e : exn) :
  m w = Throw e w' -> (m ≫= k) w = Throw e w'.
Proof. unfold mbind, M_bind. by intros ->. Qed.

Lemma renderStage_run (w : World) (a : Application) :
  app (this w) = Some a ->
  renderStage w
  = Ok tt (add_events
             (Invoke MRenderStage
              :: (if negb (raf (props (this w)))
                     && renderOnComponentChange (props (this w))
                  then [RendererRender (app_stage a)] else []))
             w).
Proof.
  intros Ha. open_world w. cbn in Ha. subst.
  destruct raf0, renderOnComponentChange0; run; unfold add_events; cbn;
    by rewrite <- ?app_assoc.
Qed.

(** The "update resolution" block of [componentDidUpdate], when the new
    [options] are an object. *)
Lemma framed_update_resolution (changed : bool) (oid : nat) (f : object) :
  framed (when changed
            (_ ← this_app;
             r ← member (OptObject oid f) "resolution";
             set_app (with_resolution r);;
             resetInteractionManager)).
Proof. auto 10 with frames. Qed.

Ltac step_framed H Hsome :=
  let x := fresh "x" in
  let w' := fresh "w" in
  let E := fresh "E" in
  let F := fresh "F" in
  destruct (H _ Hsome) as (x & w' & E & F);
  rewrite (bind_Ok _ _ _ _ _ E); cbv beta.

(** What one [componentDidUpdate] of a stage with an application does up to
    its commit, whatever the fiber renderer is: it throws before anything
    else when the new props carry a truthy resolution and the previous
    [options] were absent; otherwise it stays within the frame until it hands
    the children to the fiber renderer, and then calls [renderStage] when a
    prop other than [children] changed. *)
Lemma componentDidUpdate_with_run
    (updateContainer : element -> option nat -> M unit) (prevProps : Props)
    (w : World) (a : Application) :
  app (this w) = Some a ->
  if truthy (opt_chain (options (props (this w))) "resolution")
     && nullish (options prevProps)
  then exists e, componentDidUpdate_with updateContainer prevProps w = Throw e w
  else exists w2,
      frame w w2
      /\ componentDidUpdate_with updateContainer prevProps w
         = (updateContainer
              (EAppProvider (Some (app_id a)) (children (props (this w))))
              (mountNode (this w));;
            when (props_changed prevProps (props (this w))) renderStage) w2.
Proof.
  intros Ha.
  assert (Hsome : is_Some (app (this w))) by (by exists a).
  unfold componentDidUpdate_with.
  erewrite !(bind_Ok (read _)) by reflexivity. cbv beta.
  set (p := props (this w)) in *.
  (* the rest of the method, once the resolution block has returned *)
  assert (Hrest : forall (w1 : World), frame w w1 ->
    exists w2, frame w w2 /\
    ((when (number_strict_neq (height prevProps) (height p)
            || number_strict_neq (width prevProps) (width p)
            || strict_neq (opt_chain (options prevProps) "resolution")
                          (opt_chain (options p) "resolution"))
        updateSize;;
      when (negb (bool_decide (raf prevProps = raf p))) (ticker (raf p));;
      el ← getChildren;
      node ← read (fun w => mountNode (this w));
      updateContainer el node;;
      when (number_strict_neq (width prevProps) (width p)
            || number_strict_neq (height prevProps) (height p)
            || negb (bool_decide (raf prevProps = raf p))
            || negb (bool_decide (renderOnComponentChange prevProps
                                  = renderOnComponentChange p))
            || options_strict_neq (options prevProps) (options p))
        renderStage) w1
     = (updateContainer (EAppProvider (Some (app_id a)) (children p))
                        (mountNode (this w));;
        when (props_changed prevProps p) renderStage) w2)).
  { intros w1 F1.
    pose proof (frame_is_Some _ _ F1 Hsome) as S1.
    step_framed (framed_when (number_strict_neq (height prevProps) (height p)
            || number_strict_neq (width prevProps) (width p)
            || strict_neq (opt_chain (options prevProps) "resolution")
                          (opt_chain (options p) "resolution")) _ framed_updateSize) S1.
    pose proof (frame_is_Some _ _ F S1) as S2.
    step_framed (framed_when (negb (bool_decide (raf prevProps = raf p))) _
                   (framed_ticker (raf p))) S2.
    pose proof (frame_trans _ _ _ F1 (frame_trans _ _ _ F F0)) as F4.
    exists w2. split; [exact F4 |].
    destruct (frame_app _ _ F4 a Ha) as (a4 & Ha4 & Hid & Hstage & _).
    unfold getChildren.
    rewrite (bind_Ok _ _ w2 w2 (EAppProvider (Some (app_id a)) (children p))).
    2:{ unfold mbind, M_bind, read, mret, M_ret.
        rewrite Ha4, (frame_props _ _ F4). cbn. by rewrite Hid. }
    cbv beta.
    rewrite (bind_Ok _ _ w2 w2 (mountNode (this w))).
    2:{ unfold read. by rewrite (frame_mountNode _ _ F4). }
    reflexivity. }
  destruct (options p) as [| |oid f] eqn:Hop.
  - (* options undefined *)
    cbn [opt_chain truthy andb]. erewrite bind_Ok by reflexivity. cbv beta.
    erewrite bind_Ok by reflexivity. cbv beta.
    exact (Hrest w (frame_refl w)).
  - cbn [opt_chain truthy andb]. erewrite bind_Ok by reflexivity. cbv beta.
    erewrite bind_Ok by reflexivity. cbv beta.
    exact (Hrest w (frame_refl w)).
  - cbn [opt_chain].
    destruct (truthy (get f "resolution")) eqn:Hres; cbn [andb].
    + destruct (options prevProps) as [| |oid' f'] eqn:Hprev; cbn [nullish].
      * eexists. erewrite bind_Throw; [reflexivity |].
        erewrite bind_Throw; reflexivity.
      * eexists. erewrite bind_Throw; [reflexivity |].
        erewrite bind_Throw; reflexivity.
      * erewrite bind_Ok by reflexivity. cbv beta.
        step_framed (framed_update_resolution
                       (strict_neq (get f' "resolution") (get f "resolution"))
                       oid f) Hsome.
        exact (Hrest _ F).
    + erewrite bind_Ok by reflexivity. cbv beta.
      erewrite bind_Ok by reflexivity. cbv beta.
      replace (nullish (options prevProps) && false) with false
        by (by destruct (nullish _)).
      exact (Hrest w (frame_refl w)).
Qed.

(** The same with the fiber renderer as an opaque call: the commit is one
    event, and [renderStage] adds its own. *)
Lemma componentDidUpdate_run (prevProps : Props) (w : World)
    (a : Application) (root : nat) :
  mounted w a root ->
  if truthy (opt_chain (options (props (this w))) "resolution")
     && nullish (options prevProps)
  then exists e, componentDidUpdate prevProps w = Throw e w
  else exists w4,
      frame w w4
      /\ componentDidUpdate prevProps w
         = Ok tt
             (add_events
                (UpdateContainer
                   (EAppProvider (Some (app_id a))
                                 (children (props (this w))))
                   (Some root)
                 :: (if props_changed prevProps (props (this w))
                     then Invoke MRenderStage
                          :: (if negb (raf (props (this w)))
                                 && renderOnComponentChange (props (this w))
                              then [RendererRender (app_stage a)] else [])
                     else []))
                w4).
Proof.
  intros Hm.
  pose proof (componentDidUpdate_with_run call_updateContainer prevProps
                w a (proj1 Hm)) as H.
  rewrite (proj2 Hm) in H.
  fold (componentDidUpdate prevProps) in H.
  destruct (truthy (opt_chain (options (props (this w))) "resolution")
            && nullish (options prevProps)); [exact H |].
  destruct H as (w4 & F4 & E). exists w4. split; [exact F4 |].
  rewrite E. destruct Hm as [Ha Hroot].
  destruct (frame_app _ _ F4 a Ha) as (a4 & Ha4 & Hid & Hstage & _).
  unfold call_updateContainer.
  erewrite bind_Ok by reflexivity. cbv beta.
  destruct (props_changed prevProps (props (this w))).
  - unfold when. rewrite (renderStage_run _ a4) by exact Ha4.
    cbn [this props add_events trace window next_ref].
    rewrite (frame_props _ _ F4), Hstage.
    unfold add_events. cbn. by rewrite <- app_assoc.
  - reflexivity.
Qed.

(** [update] is [componentDidUpdate] in the world with the new props. *)
Lemma update_unfold (p : Props) (w : World) :
  update p w
  = componentDidUpdate (props (this w))
      {| this := with_props p (this w); window := window w;
         trace := trace w; next_ref := next_ref w |}.
Proof. reflexivity. Qed.

(** With the fiber renderer as an opaque call, [updates_with] is
    [updates]. *)
Lemma updates_with_call (ps : list Props) :
  updates_with call_updateContainer ps = updates ps.
Proof. induction ps as [|p ps IH]; [done |]. cbn. by rewrite IH. Qed.

Lemma update_run (p : Props) (w : World) (a : Application) (root : nat) :
  mounted w a root ->
  let w1 := {| this := with_props p (this w); window := window w;
               trace := trace w; next_ref := next_ref w |} in
  if truthy (opt_chain (options p) "resolution")
     && nullish (options (props (this w)))
  then exists e, update p w = Throw e w1
  else exists w4,
      frame w1 w4
      /\ update p w
         = Ok tt
             (add_events
                (UpdateContainer (EAppProvider (Some (app_id a)) (children p))
                                 (Some root)
                 :: (if props_changed (props (this w)) p
                     then Invoke MRenderStage
                          :: (if negb (raf p) && renderOnComponentChange p
                              then [RendererRender (app_stage a)] else [])
                     else []))
                w4).
Proof.
  intros [Ha Hroot] w1. rewrite update_unfold. fold w1.
  assert (Hm : mounted w1 a root) by (split; [exact Ha | exact Hroot]).
  exact (componentDidUpdate_run (props (this w)) w1 a root Hm).
Qed.

(** ** Counting commits *)

Lemma quiet_no_commit (es : list event) :
  forallb quiet es = true -> existsb is_commit es = false.
Proof.
  induction es as [|e es IH]; [done |]. cbn. intros H.
  apply andb_true_iff in H as [He Hes]. rewrite (IH Hes), orb_false_r.
  unfold quiet in He. by destruct (is_commit e).
Qed.

Lemma count_zero (f : event -> bool) (es : list event) :
  existsb f es = false -> count f es = 0.
Proof.
  unfold count. induction es as [|e es IH]; [done |]. cbn. intros H.
  apply orb_false_iff in H as [He Hes]. rewrite He. by apply IH.
Qed.

Lemma after_last_commit_spec (pre post : list event) (e : event) :
  is_commit e = true -> existsb is_commit post = false ->
  after_last_commit (pre ++ e :: post) = post.
Proof.
  intros He Hpost. induction pre as [|x pre IH]; cbn.
  - by rewrite Hpost, He.
  - rewrite existsb_app. cbn. rewrite He, orb_true_r. exact IH.
Qed.

Lemma trace_add_events (es : list event) (w : World) :
  trace (add_events es w) = trace w ++ es.
Proof. reflexivity. Qed.

Lemma example_is_mounted : mounted example_mounted example_app 104.
Proof. split; vm_compute; reflexivity. Qed.

(** ** Commits and the redraw request *)

Lemma quiet_calm (es : list event) :
  forallb quiet es = true -> forallb calm es = true.
Proof.
  induction es as [|e es IH]; [done |]. cbn. intros H.
  apply andb_true_iff in H as [He Hes]. rewrite (IH Hes), andb_true_r.
  unfold quiet in He. unfold calm.
  by destruct (is_commit e), (is_signal e), (is_renderStage_call e),
    (is_createContainer e).
Qed.

Lemma steady_of_framed {A} (m : M A) : framed m -> steady m.
Proof.
  intros H w Hw. destruct (H w Hw) as (x & w' & E & F).
  destruct (frame_trace _ _ F) as (es & T & Q).
  exists x, w', es. repeat split; try done.
  - by apply (frame_is_Some _ _ F).
  - by apply quiet_calm.
Qed.

Lemma steady_ret {A} (a : A) : steady (mret a).
Proof. apply steady_of_framed, framed_ret. Qed.

Lemma steady_bind {A B} (m : M A) (k : A -> M B) :
  steady m -> (forall a, steady (k a)) -> steady (m ≫= k).
Proof.
  intros Hm Hk w Hw.
  destruct (Hm w Hw) as (a & w1 & es1 & E1 & S1 & T1 & C1).
  destruct (Hk a w1 S1) as (b & w2 & es2 & E2 & S2 & T2 & C2).
  exists b, w2, (es1 ++ es2). split; [| split; [done | split]].
  - by rewrite (bind_Ok _ _ _ _ _ E1).
  - by rewrite T2, T1, app_assoc.
  - by rewrite forallb_app, C1, C2.
Qed.

Lemma steady_emit (e : event) : calm e = true -> steady (emit e).
Proof.
  intros He w Hw. exists tt, (add_events [e] w), [e].
  repeat split; try done. cbn. by rewrite He.
Qed.

Lemma steady_when (c : bool) (m : M unit) : steady m -> steady (when c m).
Proof. destruct c; [done | intros _; apply steady_ret]. Qed.

Lemma steady_set_this (f : Stage -> Stage) :
  (forall s, app (f s) = app s) -> steady (set_this f).
Proof.
  intros Hf w Hw. eexists tt, _, []. split; [reflexivity |]. cbn.
  rewrite Hf, app_nil_r. done.
Qed.

Lemma steady_set_listeners (f : list (string * fn) -> list (string * fn)) :
  steady (set_listeners f).
Proof.
  intros w Hw. eexists tt, _, []. split; [reflexivity |]. cbn.
  rewrite app_nil_r. done.
Qed.

Lemma steady_renderStage : steady renderStage.
Proof.
  intros w [a Ha]. rewrite (renderStage_run w a Ha).
  eexists tt, _, _. split; [reflexivity |].
  split; [by exists a |]. split; [reflexivity |].
  by destruct (negb _ && _).
Qed.

Lemma steady_catch (m : M unit) : steady m -> steady (catch m).
Proof.
  intros H w Hw. destruct (H w Hw) as ([] & w' & es & E & S & T & C).
  exists tt, w', es. unfold catch. by rewrite E.
Qed.

Lemma steady_for_each {A} (f : A -> M unit) (l : list A) :
  (forall x, steady (f x)) -> steady (for_each f l).
Proof.
  intros Hf. induction l as [|x l IH]; [apply steady_ret |].
  cbn [for_each]. apply steady_bind; [apply Hf | intros _; exact IH].
Qed.

Lemma steady_call_listener (f : fn) : steady (call_listener f).
Proof.
  unfold call_listener. apply steady_bind; [apply steady_of_framed, framed_read |].
  intros me. destruct f as [i|i|r].
  - case_bool_decide; [apply steady_catch, steady_renderStage |].
    by apply steady_emit.
  - case_bool_decide; [apply steady_catch, steady_of_framed, framed_updateSize |].
    by apply steady_emit.
  - by apply steady_emit.
Qed.

Create HintDb steadies.
#[local] Hint Resolve steady_ret steady_when steady_renderStage
  steady_set_listeners steady_call_listener : steadies.
#[local] Hint Extern 1 (steady (emit _)) =>
  apply steady_emit; reflexivity : steadies.
#[local] Hint Extern 1 (steady (set_this _)) =>
  apply steady_set_this; intros []; reflexivity : steadies.
#[local] Hint Extern 2 (steady (_ ≫= _)) =>
  apply steady_bind; [| intros ?] : steadies.
#[local] Hint Extern 3 (steady _) =>
  apply steady_of_framed; auto 20 with frames : steadies.
#[local] Hint Extern 1 (steady (match ?x with _ => _ end)) =>
  destruct x : steadies.

(** What the coordinator's [updateContainer] adds: the commit, the signal,
    and what the listeners of the signal do, which is neither. *)
Lemma commits_once_updateContainer (el : element) (root : option nat) :
  commits_once (Scheduler.updateContainer el root).
Proof.
  intros w Hw.
  assert (Hl : steady (ls ← read (fun w => listeners (window w));
                       for_each call_listener
                         (List.filter (fun l => bool_decide (l.1 = REQUEST_RENDER))
                                      ls).*2)).
  { apply steady_bind; [auto with steadies | intros ls].
    apply steady_for_each, steady_call_listener. }
  destruct (Hl (add_events [UpdateContainer el root;
                            DispatchEvent REQUEST_RENDER] w) Hw)
    as (x & w' & es & E & S & T & C).
  exists x, w', [], (UpdateContainer el root), (DispatchEvent REQUEST_RENDER), es.
  split; [| split; [done | split; [| done]]].
  - rewrite <- E. unfold Scheduler.updateContainer,
      Scheduler.requestExternalRedraw, dispatchEvent, add_events.
    unfold mbind at 1 2 3, M_bind at 1 2 3. cbn [emit modify].
    cbn [trace this window next_ref]. by rewrite <- app_assoc.
  - rewrite T. cbn. by rewrite <- app_assoc.
Qed.

Lemma once_steady_bind {A B} (m : M A) (k : A -> M B) :
  steady m -> (forall a, commits_once (k a)) -> commits_once (m ≫= k).
Proof.
  intros Hm Hk w Hw.
  destruct (Hm w Hw) as (a & w1 & es1 & E1 & S1 & T1 & C1).
  destruct (Hk a w1 S1) as (b & w2 & pre & c & s & post & E2 & S2 & T2 & P & Hc & Hs & Q).
  exists b, w2, (es1 ++ pre), c, s, post.
  split; [| split; [done | split; [| repeat split; try done]]].
  - by rewrite (bind_Ok _ _ _ _ _ E1).
  - by rewrite T2, T1, <- !app_assoc.
  - by rewrite forallb_app, C1, P.
Qed.

Lemma once_bind_steady {A B} (m : M A) (k : A -> M B) :
  commits_once m -> (forall a, steady (k a)) -> commits_once (m ≫= k).
Proof.
  intros Hm Hk w Hw.
  destruct (Hm w Hw) as (a & w1 & pre & c & s & post & E1 & S1 & T1 & P & Hc & Hs & Q).
  destruct (Hk a w1 S1) as (b & w2 & es2 & E2 & S2 & T2 & C2).
  exists b, w2, pre, c, s, (post ++ es2).
  split; [| split; [done | split; [| repeat split; try done]]].
  - by rewrite (bind_Ok _ _ _ _ _ E1).
  - rewrite T2, T1. by rewrite <- !app_assoc.
  - by rewrite forallb_app, Q, C2.
Qed.

Lemma once_bind_uc {B} (el : element) (root : option nat) (k : unit -> M B) :
  (forall a, steady (k a)) ->
  commits_once (Scheduler.updateContainer el root ≫= k).
Proof. apply once_bind_steady, commits_once_updateContainer. Qed.

#[local] Hint Resolve once_bind_uc : steadies.
#[local] Hint Extern 3 (commits_once (_ ≫= _)) =>
  apply once_steady_bind; [| intros ?] : steadies.

Lemma answered_calm (es t : list event) :
  forallb calm es = true -> answered (es ++ t) = answered t.
Proof.
  induction es as [|e es IH]; [done |]. cbn. intros H.
  apply andb_true_iff in H as [He Hes]. rewrite (IH Hes).
  unfold calm in He. by destruct (is_commit e), (is_signal e).
Qed.

Lemma count_calm (es : list event) :
  forallb calm es = true -> count is_commit es = 0 /\ count is_signal es = 0.
Proof.
  unfold count. induction es as [|e es IH]; [done |]. cbn. intros H.
  apply andb_true_iff in H as [He Hes]. destruct (IH Hes) as [IH1 IH2].
  unfold calm in He. by destruct (is_commit e), (is_signal e).
Qed.

Lemma commit_no_signal (e : event) : is_commit e = true -> is_signal e = false.
Proof. by destruct e. Qed.

(** A trace with one commit, the signal right after it and neither anywhere
    else has every commit answered, one commit and one signal. *)
Lemma once_answered (pre post : list event) (c s : event) :
  forallb calm pre = true -> is_commit c = true -> is_signal s = true ->
  forallb calm post = true ->
  let es := pre ++ [c; s] ++ post in
  answered es = true /\ count is_commit es = 1 /\ count is_signal es = 1.
Proof.
  intros P Hc Hs Q es. subst es.
  destruct (count_calm _ P) as [P1 P2], (count_calm _ Q) as [Q1 Q2].
  assert (Hsc : is_commit s = false) by (destruct s; try done).
  split; [| split].
  - rewrite (answered_calm _ _ P). cbn. rewrite Hc, Hs. cbn.
    rewrite <- (app_nil_r post). by rewrite (answered_calm _ _ Q).
  - rewrite !count_app, P1, Q1. unfold count. cbn. by rewrite Hc, Hsc.
  - rewrite !count_app, P2, Q2. unfold count. cbn.
    by rewrite Hs, (commit_no_signal _ Hc).
Qed.

Lemma once_at_emitted {A} (m : M A) (w : World) :
  once_at m w ->
  returns (m w) = true
  /\ answered (emitted m w) = true
  /\ count is_commit (emitted m w) = 1
  /\ count is_signal (emitted m w) = 1.
Proof.
  intros (x & w' & pre & c & s & post & E & S & T & P & Hc & Hs & Q).
  assert (Hem : emitted m w = pre ++ [c; s] ++ post).
  { apply emitted_eq. by rewrite E. }
  rewrite Hem, E. split; [reflexivity |]. by apply once_answered.
Qed.

Lemma commits_once_unmount :
  commits_once (componentWillUnmount_with Scheduler.updateContainer).
Proof. unfold componentWillUnmount_with. auto 30 with steadies. Qed.

Lemma commits_once_mount_rest (p : Props) (a : Application) :
  commits_once
    (set_app (with_ticker_autoStart false);;
     ticker (raf p);;
     root ← fresh;
     emit (CreateContainer (app_stage a) root);;
     set_this (with_mountNode (Some root));;
     el ← getChildren;
     node ← read (fun w => mountNode (this w));
     Scheduler.updateContainer el node;;
     emit InjectDevtools;;
     emit (CallOnMount (onMount p) (app_id a));;
     me ← read (fun w => self (this w));
     mm ← read (fun w => matchMedia (window w));
     when (hasAutoDensity (opt_chain (options p) "autoDensity") && mm
           && negb (truthy (opt_chain (options p) "resolution")))
       (mq ← fresh;
        emit (MatchMedia mq);;
        set_this (with_mediaQuery (Some mq));;
        emit (MqAddListener mq (UpdateSizeOf me)));;
     when (renderOnComponentChange p && negb (raf p))
       (emit (AddEventListener REQUEST_RENDER (RenderStageOf me));;
        set_listeners (add_listener (REQUEST_RENDER, RenderStageOf me)));;
     updateSize;;
     renderStage).
Proof. unfold getChildren. auto 40 with steadies. Qed.

Lemma once_at_after {A B} (m : M A) (m' : M B) (w w' : World)
    (es : list event) :
  once_at m' w' ->
  (forall x w'', m' w' = Ok x w'' -> exists y, m w = Ok y w'') ->
  trace w' = trace w ++ es -> forallb calm es = true ->
  once_at m w.
Proof.
  intros (x & w2 & pre & c & s & post & E & S & T & P & Hc & Hs & Q) Hm Tw C.
  destruct (Hm x w2 E) as [y Ey].
  exists y, w2, (es ++ pre), c, s, post.
  split; [done | split; [done | split; [| repeat split; try done]]].
  - by rewrite T, Tw, <- !app_assoc.
  - by rewrite forallb_app, C, P.
Qed.

Lemma once_at_signals {A} (m : M A) (w : World) :
  once_at m w -> signals_once_after_commit m w.
Proof.
  intros H. destruct (once_at_emitted m w H) as (R & An & C & Sg). by repeat split.
Qed.

Lemma mount_commits_once (w : World) :
  once_at (componentDidMount_with Scheduler.updateContainer) w.
Proof.
  pose (cfg := application_config (props (this w)) (_canvas (this w))).
  pose (a0 := mkApp (next_ref w) cfg (S (next_ref w)) None None
                    (S (S (next_ref w))) None None (S (S (S (next_ref w))))
                    None None false).
  pose (w0 := {| this := with_app (Some a0) (this w); window := window w;
                 trace := trace w ++ [NewApplication (next_ref w) cfg];
                 next_ref := S (S (S (S (next_ref w)))) |}).
  assert (H0 : is_Some (app (this w0))) by (by exists a0).
  eapply (once_at_after _ _ w w0);
    [exact (commits_once_mount_rest (props (this w)) a0 w0 H0) | | |].
  - intros x w'' E. exists x. rewrite <- E. reflexivity.
  - reflexivity.
  - reflexivity.
Qed.

(** A re-render of a stage with an application, through the coordinator:
    it throws at once, with only the props replaced, or commits once. *)
Lemma update_commits_once (p : Props) (w : World) :
  is_Some (app (this w)) ->
  let w1 := {| this := with_props p (this w); window := window w;
               trace := trace w; next_ref := next_ref w |} in
  if truthy (opt_chain (options p) "resolution")
     && nullish (options (props (this w)))
  then exists e, update_with Scheduler.updateContainer p w = Throw e w1
  else once_at (update_with Scheduler.updateContainer p) w.
Proof.
  intros [a Ha] w1.
  assert (Hu : update_with Scheduler.updateContainer p w
               = componentDidUpdate_with Scheduler.updateContainer
                   (props (this w)) w1) by reflexivity.
  pose proof (componentDidUpdate_with_run Scheduler.updateContainer
                (props (this w)) w1 a Ha) as H.
  change (props (this w1)) with p in H.
  destruct (truthy (opt_chain (options p) "resolution")
            && nullish (options (props (this w)))).
  - destruct H as [e E]. exists e. by rewrite Hu.
  - destruct H as (w2 & F & E).
    destruct (frame_trace _ _ F) as (es & T & Q).
    eapply (once_at_after _ _ w w2 es).
    + refine ((_ : commits_once _) w2 _).
      * apply once_bind_uc. intros ?. apply steady_when, steady_renderStage.
      * apply (frame_is_Some _ _ F). by exists a.
    + intros x w'' E'. exists x. by rewrite Hu, E.
    + exact T.
    + by apply quiet_calm.
Qed.

(** [answered] goes through two events at a time; so do the proofs. *)
Lemma answered_ind2 (P : list event -> Prop) :
  P [] ->
  (forall c s t, is_commit c = true -> is_signal s = true ->
     answered t = true -> P t -> P (c :: s :: t)) ->
  (forall e t, calm e = true -> answered t = true -> P t -> P (e :: t)) ->
  forall t, answered t = true -> P t.
Proof.
  intros Hnil Hcs Hcalm t.
  assert (H : (answered t = true -> P t)
              /\ forall e, answered (e :: t) = true -> P (e :: t)).
  { induction t as [|x t [IH1 IH2]].
    - split; [done |]. intros e He. cbn in He.
      destruct (is_commit e) eqn:Hc; [done |].
      apply Hcalm; [| done | done]. unfold calm. rewrite Hc.
      by destruct (is_signal e).
    - split; [exact (IH2 x) |]. intros e He.
      change (answered (e :: x :: t))
        with (if is_commit e then is_signal x && answered t
              else negb (is_signal e) && answered (x :: t)) in He.
      destruct (is_commit e) eqn:Hc.
      + apply andb_true_iff in He as [Hs Ht]. apply Hcs; auto.
      + apply andb_true_iff in He as [Hs Ht].
        apply Hcalm; [| done | by apply IH2]. unfold calm. by rewrite Hc, Hs. }
  exact (proj1 H).
Qed.

Lemma answered_app (s t : list event) :
  answered s = true -> answered t = true -> answered (s ++ t) = true.
Proof.
  intros Hs Ht. revert s Hs. apply answered_ind2.
  - exact Ht.
  - intros c x s Hc Hx _ IH. cbn. by rewrite Hc, Hx.
  - intros e s He _ IH. change (answered ([e] ++ (s ++ t)) = true).
    rewrite answered_calm; [exact IH |]. cbn. by rewrite He.
Qed.

(** In a trace where every commit is answered there are as many signals as
    commits. *)
Lemma answered_count (t : list event) :
  answered t = true -> count is_signal t = count is_commit t.
Proof.
  revert t. apply answered_ind2; [done | |].
  - intros c s t Hc Hs _ IH. unfold count in *. cbn.
    rewrite Hc, Hs, (commit_no_signal _ Hc).
    assert (Hsc : is_commit s = false) by (by destruct s).
    rewrite Hsc. cbn. by rewrite IH.
  - intros e t He _ IH. unfold count in *. cbn.
    unfold calm in He. destruct (is_commit e), (is_signal e); try done.
Qed.

(** A computation whose every commit is answered, and which leaves the
    application in place, whether it returns or throws. *)
Lemma once_at_orderly {A} (m : M A) (w : World) :
  once_at m w ->
  exists es, trace (final (m w)) = trace w ++ es /\ answered es = true
             /\ count is_commit es = 1
             /\ is_Some (app (this (final (m w)))).
Proof.
  intros (x & w' & pre & c & s & post & E & S & T & P & Hc & Hs & Q).
  exists (pre ++ [c; s] ++ post). rewrite E. cbn [final].
  split; [exact T |].
  destruct (once_answered pre post c s P Hc Hs Q) as (H1 & H2 & _).
  by repeat split.
Qed.

Lemma updates_orderly (ps : list Props) (w : World) :
  is_Some (app (this w)) ->
  let w' := final (updates_with Scheduler.updateContainer ps w) in
  exists es, trace w' = trace w ++ es /\ answered es = true
             /\ count is_commit es <= length ps
             /\ is_Some (app (this w')).
Proof.
  revert w. induction ps as [|p ps IH]; intros w Hw; cbv zeta.
  - exists []. cbn. rewrite app_nil_r. repeat split; [lia | done].
  - cbn [updates_with]. pose proof (update_commits_once p w Hw) as H.
    cbv zeta in H.
    destruct (truthy (opt_chain (options p) "resolution")
              && nullish (options (props (this w)))).
    + destruct H as [e E]. rewrite (bind_Throw _ _ _ _ _ E). cbn [final].
      exists []. cbn. rewrite app_nil_r. repeat split; [lia | done].
    + destruct (once_at_orderly _ _ H) as (es1 & T1 & A1 & C1 & S1).
      destruct H as (x & w1 & _ & _ & _ & _ & E & _).
      rewrite E in T1, S1. cbn [final] in T1, S1.
      rewrite (bind_Ok _ _ _ _ _ E).
      destruct (IH w1 S1) as (es2 & T2 & A2 & C2 & S2). cbv zeta in *.
      exists (es1 ++ es2). split; [| split; [| split; [| exact S2]]].
      * by rewrite T2, T1, app_assoc.
      * by apply answered_app.
      * rewrite count_app, C1. cbn [length]. lia.
Qed.

(** C3. With the commits made through the scheduling coordinator of the
    specification, every commit of a stage is followed by the
    redraw-request signal exactly once.  [componentDidMount], from any
    world, and [componentWillUnmount] and a re-render of a mounted stage
    return after exactly one commit and exactly one signal, the signal being
    the event right after the commit; neither the component nor the
    listeners that the signal calls make another commit or send another
    signal.  A re-render that throws (a truthy resolution after absent
    [options]) throws before it commits, and adds nothing to the trace.  So
    over the whole life of a stage, from its construction through any
    re-renders to its unmounting, every commit in the trace is at once
    followed by the signal, the signal occurs nowhere else, and there are as
    many signals as commits. *)
Theorem redraw_signal_once_after_commit :
  (forall w : World,
      signals_once_after_commit
        (componentDidMount_with Scheduler.updateContainer) w)
  /\ (forall (w : World) a root,
      mounted w a root ->
      signals_once_after_commit
        (componentWillUnmount_with Scheduler.updateContainer) w)
  /\ (forall (w : World) a root (p : Props),
      mounted w a root ->
      if truthy (opt_chain (options p) "resolution")
         && nullish (options (props (this w)))
      then returns (update_with Scheduler.updateContainer p w) = false
           /\ emitted (update_with Scheduler.updateContainer p) w = []
      else signals_once_after_commit
             (update_with Scheduler.updateContainer p) w)
  /\ (forall (me : nat) (p : Props) (canvas : value) (win : Window)
             (next : nat) (ps : list Props),
      let w1 := final (componentDidMount_with Scheduler.updateContainer
                         (initial_World me p canvas win next)) in
      let w2 := final (updates_with Scheduler.updateContainer ps w1) in
      let w3 := final (componentWillUnmount_with Scheduler.updateContainer
                         w2) in
      answered (trace w3) = true
      /\ count is_signal (trace w3) = count is_commit (trace w3)
      /\ 2 <= count is_commit (trace w3) <= 2 + length ps).
Proof.
  split; [| split; [| split]].
  - intros w. apply once_at_signals, mount_commits_once.
  - intros w a root [Ha _]. apply once_at_signals.
    apply commits_once_unmount. by exists a.
  - intros w a root p [Ha Hroot].
    assert (Hw : is_Some (app (this w))) by (by exists a).
    pose proof (update_commits_once p w Hw) as H. cbv zeta in H.
    destruct (truthy (opt_chain (options p) "resolution")
              && nullish (options (props (this w)))).
    + destruct H as [e E]. unfold emitted. rewrite E. cbn.
      by rewrite drop_all.
    + by apply once_at_signals.
  - intros me p canvas win next ps w1 w2 w3.
    destruct (once_at_orderly _ _
                (mount_commits_once (initial_World me p canvas win next)))
      as (es1 & T1 & A1 & C1 & S1).
    fold w1 in T1, S1. cbn [initial_World trace app_nil_l] in T1.
    destruct (updates_orderly ps w1 S1) as (es2 & T2 & A2 & C2 & S2).
    cbv zeta in T2, S2. fold w2 in T2, S2.
    destruct (once_at_orderly _ _ (commits_once_unmount w2 S2))
      as (es3 & T3 & A3 & C3 & _).
    fold w3 in T3.
    assert (T : trace w3 = es1 ++ es2 ++ es3).
    { rewrite T3, T2, T1. by rewrite <- app_assoc. }
    assert (A : answered (trace w3) = true).
    { rewrite T. by repeat apply answered_app. }
    split; [exact A |]. split; [by apply answered_count |].
    rewrite T, !count_app, C1, C3. lia.
Qed.

Lemma redraw_signal_once_after_commit_witness :
  mounted example_mounted example_app 104
  /\ signals_once_after_commit
       (update_with Scheduler.updateContainer
          (example_props (VRef 3) OptUndefined))
       example_mounted
  /\ signals_once_after_commit
       (componentWillUnmount_with Scheduler.updateContainer) example_mounted.
Proof.
  split; [exact example_is_mounted |]. split.
  - exact (proj1 (proj2 (proj2 redraw_signal_once_after_commit))
             example_mounted example_app 104
             (example_props (VRef 3) OptUndefined) example_is_mounted).
  - exact (proj1 (proj2 redraw_signal_once_after_commit)
             example_mounted example_app 104 example_is_mounted).
Defined.

(** The signal reaches its subscriber: in the example, where [renderStage]
    is registered for the event, a re-render that changes only [children]
    commits, sends the signal, and the signal runs [renderStage], which
    renders. *)
Example signal_runs_the_registered_renderStage :
  let p := example_props (VRef 3) OptUndefined in
  emitted (update_with Scheduler.updateContainer p) example_mounted
  = [UpdateContainer (EAppProvider (Some 100) (VRef 3)) (Some 104);
     DispatchEvent REQUEST_RENDER;
     Invoke MRenderStage; RendererRender 101].
Proof. vm_compute. reflexivity. Qed.

(** ** The component's own calls of [renderStage] *)

(** With the fiber renderer as an opaque call, a re-render of the example
    that changes only [children] commits once and does not call
    [renderStage] itself. *)
Example children_only_update_calls_no_renderStage :
  let p := example_props (VRef 3) OptUndefined in
  returns (update p example_mounted) = true
  /\ count is_commit (emitted (update p) example_mounted) = 1
  /\ renderStage_calls_after_commit (emitted (update p) example_mounted) = 0
  /\ renderStage_calls_after_commit (emitted (update p) example_mounted) <> 1.
Proof. vm_compute. repeat split; congruence. Qed.

(** X15. Apart from the redraw request, the component calls [renderStage]
    itself.  With the fiber renderer as a call that does not call back, the
    commit of [componentDidMount] and the commit of [componentWillUnmount]
    are each followed by exactly one call of [renderStage]; a
    [componentDidUpdate] that returns makes exactly one commit, followed by
    exactly one call of [renderStage] when [width], [height], [raf],
    [renderOnComponentChange] or the identity of [options] changed, and by
    none otherwise; one that throws makes no commit. *)
Theorem renderStage_called_after_commit :
  (forall w : World,
      count is_commit (emitted componentDidMount w) = 1
      /\ renderStage_calls_after_commit (emitted componentDidMount w) = 1)
  /\ (forall (w : World) a root,
      mounted w a root ->
      count is_commit (emitted componentWillUnmount w) = 1
      /\ renderStage_calls_after_commit (emitted componentWillUnmount w) = 1)
  /\ (forall (w : World) a root (p : Props),
      mounted w a root ->
      if truthy (opt_chain (options p) "resolution")
         && nullish (options (props (this w)))
      then returns (update p w) = false
           /\ count is_commit (emitted (update p) w) = 0
      else returns (update p w) = true
           /\ count is_commit (emitted (update p) w) = 1
           /\ renderStage_calls_after_commit (emitted (update p) w)
              = if props_changed (props (this w)) p then 1 else 0).
Proof.
  split; [| split].
  - intros w. open_world w. unfold emitted.
    destruct raf0, renderOnComponentChange0, matchMedia0; exec;
      rewrite <- !app_assoc, drop_app_length; split; reflexivity.
  - intros w a root [Ha Hroot]. open_world w. cbn in Ha, Hroot. subst.
    unfold emitted. destruct a.
    destruct raf0, renderOnComponentChange0, _mediaQuery0 as [q|]; exec;
      rewrite <- !app_assoc, drop_app_length; split; reflexivity.
  - intros w a root p Hm. pose proof (update_run p w a root Hm) as H.
    cbv zeta in H.
    destruct (truthy (opt_chain (options p) "resolution")
              && nullish (options (props (this w)))).
    + destruct H as [e E]. unfold emitted. rewrite E. cbn.
      by rewrite drop_all.
    + destruct H as (w4 & F & E).
      destruct (frame_trace _ _ F) as (es & T & Q). cbn in T.
      set (tail := if props_changed (props (this w)) p
                   then Invoke MRenderStage
                        :: (if negb (raf p) && renderOnComponentChange p
                            then [RendererRender (app_stage a)] else [])
                   else []) in *.
      assert (Htail : existsb is_commit tail = false).
      { subst tail. destruct (props_changed _ _); [| done].
        by destruct (negb (raf p) && renderOnComponentChange p). }
      assert (Hem : emitted (update p) w
                    = es ++ UpdateContainer
                              (EAppProvider (Some (app_id a)) (children p))
                              (Some root) :: tail).
      { apply emitted_eq. rewrite E. cbn [final].
        rewrite trace_add_events, T. by rewrite <- app_assoc. }
      rewrite Hem, E. split; [reflexivity |]. split.
      * rewrite count_app, (count_zero _ _ (quiet_no_commit _ Q)).
        change (count is_commit (?e :: ?t)) with (S (count is_commit t)).
        by rewrite (count_zero _ _ Htail).
      * unfold renderStage_calls_after_commit.
        rewrite after_last_commit_spec by done.
        subst tail. destruct (props_changed _ _); [| done].
        by destruct (negb (raf p) && renderOnComponentChange p).
Qed.

Lemma renderStage_called_after_commit_witness :
  mounted example_mounted example_app 104
  /\ (let p := example_props (VRef 1) (OptObject 9 ∅) in
      returns (update p example_mounted) = true
      /\ count is_commit (emitted (update p) example_mounted) = 1
      /\ renderStage_calls_after_commit (emitted (update p) example_mounted)
         = 1).
Proof.
  split; [exact example_is_mounted |].
  exact (proj2 (proj2 renderStage_called_after_commit)
           example_mounted example_app 104
           (example_props (VRef 1) (OptObject 9 ∅)) example_is_mounted).
Defined.

(** ** The render-request listener *)

Lemma elem_of_add_listener (l l' : string * fn) (ls : list (string * fn)) :
  l' ∈ add_listener l ls <-> l' = l \/ l' ∈ ls.
Proof.
  unfold add_listener. case_bool_decide as Hin.
  - split; [by right | intros [-> | H]; done].
  - rewrite elem_of_app, list_elem_of_singleton. tauto.
Qed.

Lemma elem_of_remove_listener (l l' : string * fn) (ls : list (string * fn)) :
  l' ∈ remove_listener l ls <-> l' <> l /\ l' ∈ ls.
Proof.
  unfold remove_listener. rewrite list_elem_of_In, filter_In, <- list_elem_of_In.
  rewrite negb_true_iff, bool_decide_eq_false. tauto.
Qed.

Lemma mount_listeners (w : World) :
  let w' := final (componentDidMount w) in
  listeners (window w')
  = (if renderOnComponentChange (props (this w)) && negb (raf (props (this w)))
     then add_listener (REQUEST_RENDER, RenderStageOf (self (this w)))
                       (listeners (window w))
     else listeners (window w))
  /\ self (this w') = self (this w)
  /\ exists a root, mounted w' a root.
Proof.
  open_world w. unfold mounted.
  destruct raf0, renderOnComponentChange0, matchMedia0; exec;
    (split; [reflexivity |]; split; [reflexivity |];
     do 2 eexists; split; reflexivity).
Qed.

Lemma unmount_listeners (w : World) :
  listeners (window (final (componentWillUnmount w)))
  = remove_listener (REQUEST_RENDER, RenderStageOf (self (this w)))
                    (listeners (window w)).
Proof.
  open_world w.
  destruct raf0, renderOnComponentChange0, _mediaQuery0 as [q|],
    app0 as [a|]; exec; reflexivity.
Qed.

(** Re-renders keep a mounted stage mounted under the same root, and leave
    the identity of the instance and the window alone, whether they return
    or throw. *)
Lemma updates_steady (ps : list Props) (w : World) (a : Application)
    (root : nat) :
  mounted w a root ->
  let w' := final (updates ps w) in
  self (this w') = self (this w)
  /\ window w' = window w
  /\ exists a', mounted w' a' root.
Proof.
  revert w a. induction ps as [|p ps IH]; intros w a Hm; cbn zeta.
  - repeat split. by exists a.
  - cbn [updates]. pose proof (update_run p w a root Hm) as H. cbv zeta in H.
    destruct (truthy (opt_chain (options p) "resolution")
              && nullish (options (props (this w)))).
    + destruct H as [e E]. rewrite (bind_Throw _ _ _ _ _ E). cbn.
      repeat split. exists a. exact Hm.
    + destruct H as (w4 & F & E). rewrite (bind_Ok _ _ _ _ _ E).
      destruct Hm as [Ha Hroot].
      destruct (frame_app _ _ F a Ha) as (a4 & Ha4 & _).
      assert (Hm4 : mounted
                (add_events
                   (UpdateContainer
                      (EAppProvider (Some (app_id a)) (children p)) (Some root)
                    :: (if props_changed (props (this w)) p
                        then Invoke MRenderStage
                             :: (if negb (raf p) && renderOnComponentChange p
                                 then [RendererRender (app_stage a)] else [])
                        else [])) w4) a4 root).
      { split; cbn; [exact Ha4 |]. by rewrite (frame_mountNode _ _ F). }
      destruct (IH _ _ Hm4) as (Hs & Hw & Hex). cbn zeta in *.
      rewrite Hs, Hw. cbn. rewrite (frame_self _ _ F), (frame_window _ _ F).
      cbn. auto.
Qed.

(** C5. The render-request channel is the [__REACT_PIXI_REQUEST_RENDER__]
    event of [window].  The [renderStage] of a new instance is registered for
    it by [componentDidMount] exactly when [renderOnComponentChange] is true
    and [raf] is false; re-renders leave the registration as it is; after
    [componentWillUnmount] it is not registered; the listeners of others are
    never touched. *)
Theorem render_request_listener_held_while_mounted (me : nat) (p : Props)
    (canvas : value) (win : Window) (next : nat) (ps : list Props) :
  let l := ("__REACT_PIXI_REQUEST_RENDER__", RenderStageOf me) in
  let w1 := final (componentDidMount (initial_World me p canvas win next)) in
  let w2 := final (updates ps w1) in
  let w3 := final (componentWillUnmount w2) in
  l ∉ listeners win ->
  (l ∈ listeners (window w1)
   <-> renderOnComponentChange p = true /\ raf p = false)
  /\ listeners (window w2) = listeners (window w1)
  /\ (l ∉ listeners (window w3))
  /\ (forall l', l' <> l ->
        (l' ∈ listeners (window w1) <-> l' ∈ listeners win)
        /\ (l' ∈ listeners (window w3) <-> l' ∈ listeners win)).
Proof.
  intros l w1 w2 w3 Hfresh.
  destruct (mount_listeners (initial_World me p canvas win next))
    as (Hl1 & Hs1 & a & root & Hm1).
  fold w1 in Hl1, Hs1, Hm1. cbn [initial_World new_Stage this self props window] in Hl1, Hs1.
  destruct (updates_steady ps w1 a root Hm1) as (Hs2 & Hw2 & _).
  fold w2 in Hs2, Hw2.
  pose proof (unmount_listeners w2) as Hl3. fold w3 in Hl3.
  rewrite Hs2, Hs1, Hw2 in Hl3. change (REQUEST_RENDER, RenderStageOf me) with l in *.
  assert (H1 : forall l', l' ∈ listeners (window w1)
                <-> ((renderOnComponentChange p && negb (raf p) = true
                      /\ l' = l)
                     \/ l' ∈ listeners win)).
  { intros l'. rewrite Hl1.
    destruct (renderOnComponentChange p && negb (raf p)).
    - rewrite elem_of_add_listener. tauto.
    - split; [tauto | intros [[? _] | ?]; [discriminate | done]]. }
  split; [split |].
  - intros Hin. apply H1 in Hin as [[Hc _] | Hin]; [| done].
    apply andb_true_iff in Hc as [Hc1 Hc2]. by apply negb_true_iff in Hc2.
  - intros [Hc Hr]. apply H1. left. by rewrite Hc, Hr.
  - split; [by rewrite Hw2 |]. split.
    + rewrite Hl3. intros Hin. apply elem_of_remove_listener in Hin. tauto.
    + intros l' Hne. split; split.
      * intros Hin. apply H1 in Hin as [[_ ?] | ?]; done.
      * intros Hin. apply H1. by right.
      * rewrite Hl3. intros Hin.
        apply elem_of_remove_listener in Hin as [_ Hin].
        apply H1 in Hin as [[_ ?] | ?]; done.
      * rewrite Hl3. intros Hin. apply elem_of_remove_listener.
        split; [done |]. apply H1. by right.
Qed.

Lemma render_request_listener_held_while_mounted_witness :
  let l := ("__REACT_PIXI_REQUEST_RENDER__", RenderStageOf 7) in
  (l ∉ listeners example_window)
  /\ l ∈ listeners (window example_mounted)
  /\ (l ∉ listeners
          (window
             (final
                (componentWillUnmount
                   (final (updates [example_props (VRef 3) OptUndefined]
                                   example_mounted)))))).
Proof.
  assert (H : ("__REACT_PIXI_REQUEST_RENDER__", RenderStageOf 7)
              ∉ listeners example_window)
    by (vm_compute; apply not_elem_of_nil).
  pose proof (render_request_listener_held_while_mounted
                7 (example_props (VRef 1) OptUndefined) (VRef 2)
                example_window 100 [example_props (VRef 3) OptUndefined] H)
    as (Hmount & _ & Hunmount & _).
  split; [exact H |]. split; [| exact Hunmount].
  apply Hmount. split; reflexivity.
Defined.

(** ** Resolution changes *)

(** C6, at the input where the code departs from it.  When the previous
    props carried no [options] and the new ones carry a resolution,
    [componentDidUpdate] throws on [prevProps?.options.resolution] before
    anything else: the renderer keeps its resolution, the interaction manager
    is neither destroyed nor replaced, and nothing is committed. *)
Theorem resolution_after_absent_options_throws (w : World) (a : Application)
    (root : nat) (p : Props) :
  mounted w a root ->
  nullish (options (props (this w))) = true ->
  truthy (opt_chain (options p) "resolution") = true ->
  exists e w',
    update p w = Throw e w'
    /\ app (this w') = Some a
    /\ trace w' = trace w.
Proof.
  intros Hm Hnull Hres. pose proof (update_run p w a root Hm) as H.
  cbv zeta in H. rewrite Hnull, Hres in H. destruct H as [e E].
  eexists _, _. split; [exact E |]. split; [apply Hm | reflexivity].
Qed.

Lemma resolution_after_absent_options_throws_witness :
  let p := example_props (VRef 1)
             (OptObject 9 (<["resolution" := VNum (Fin 3)]> ∅)) in
  mounted example_mounted example_app 104
  /\ nullish (options (props (this example_mounted))) = true
  /\ truthy (opt_chain (options p) "resolution") = true
  /\ returns (update p example_mounted) = false
  /\ (renderer_resolution <$> app (this (final (update p example_mounted))))
     = Some (Some (VNum (Fin 2)))
  /\ (interaction <$> app (this (final (update p example_mounted))))
     = Some (interaction example_app)
  /\ trace (final (update p example_mounted)) = trace example_mounted.
Proof.
  assert (Hm : mounted example_mounted example_app 104)
    by (split; vm_compute; reflexivity).
  assert (Hn : nullish (options (props (this example_mounted))) = true)
    by (vm_compute; reflexivity).
  assert (Hr : truthy (opt_chain
                         (options (example_props (VRef 1)
                            (OptObject 9 (<["resolution" := VNum (Fin 3)]> ∅))))
                         "resolution") = true)
    by (vm_compute; reflexivity).
  destruct (resolution_after_absent_options_throws
              example_mounted example_app 104 _ Hm Hn Hr)
    as (e & w' & E & Ha & Ht).
  cbv zeta. rewrite E. cbn [returns final]. rewrite Ha, Ht.
  repeat split; assumption.
Defined.

(** The sibling case, where the code does what C6 says: with previous
    [options] that are an object, a changed truthy resolution is written to
    the renderer and the interaction manager is destroyed and replaced by a
    new one of the same renderer. *)
Lemma resolution_change_resets_interaction :
  let prev := example_props (VRef 1)
                (OptObject 8 (<["resolution" := VNum (Fin 2)]> ∅)) in
  let p := example_props (VRef 1)
             (OptObject 9 (<["resolution" := VNum (Fin 3)]> ∅)) in
  let w := final (componentDidMount
                    (initial_World 7 prev (VRef 2) example_window 100)) in
  let w' := final (update p w) in
  returns (update p w) = true
  /\ (renderer_resolution <$> app (this w')) = Some (Some (VNum (Fin 3)))
  /\ (interaction <$> app (this w)) = Some 103
  /\ (interaction <$> app (this w')) = Some 105
  /\ emitted (update p) w
     = [InteractionDestroy 103; NewInteractionManager 105 102;
        Invoke MUpdateSize; Resize (Fin 800) (Fin 600);
        UpdateContainer (EAppProvider (Some 100) (VRef 1)) (Some 104);
        Invoke MRenderStage; RendererRender 101].
Proof. vm_compute. repeat split; reflexivity. Qed.

(** A size update without an explicit resolution takes the device pixel
    ratio and resets the interaction manager in the same way. *)
Lemma updateSize_without_resolution_resets_interaction (w : World)
    (a : Application) :
  app (this w) = Some a ->
  truthy (opt_chain (options (props (this w))) "resolution") = false ->
  exists w' a' rest,
    updateSize w = Ok tt w'
    /\ app (this w') = Some a'
    /\ renderer_resolution a' = Some (devicePixelRatio (window w))
    /\ interaction a' = next_ref w
    /\ emitted updateSize w
       = [Invoke MUpdateSize; InteractionDestroy (interaction a);
          NewInteractionManager (next_ref w) (renderer_id a)] ++ rest.
Proof.
  intros Ha Hres. open_world w. cbn in Ha, Hres. subst. unfold emitted.
  destruct a. run. rewrite Hres. exec;
    rewrite <- !app_assoc, drop_app_length;
    (do 3 eexists; split; [reflexivity |]; split; [reflexivity |];
     split; [reflexivity |]; split; reflexivity).
Qed.

(** ** The theorems of mounting, sizing and unmounting on the example *)

Lemma unmount_commits_empty_tree_before_destroy_witness :
  mounted example_mounted example_app 104
  /\ exists w' mid,
      componentWillUnmount example_mounted = Ok tt w'
      /\ emitted componentWillUnmount example_mounted
         = [CallOnUnmount noop (Some 100);
            RemoveEventListener REQUEST_RENDER (RenderStageOf 7);
            UpdateContainer ENull (Some 104)]
           ++ mid
           ++ [AppDestroy 100]
      /\ count is_commit mid = 0
      /\ count is_destroy mid = 0
      /\ destroyed <$> app (this w') = Some true.
Proof.
  assert (Hm : mounted example_mounted example_app 104)
    by (split; vm_compute; reflexivity).
  split; [exact Hm |].
  exact (unmount_commits_empty_tree_before_destroy
           example_mounted example_app 104 Hm).
Defined.

Lemma autoDensity_forced_off_but_css_sized_witness :
  app (this example_mounted) = Some example_app
  /\ exists w' a',
      updateSize example_mounted = Ok tt w'
      /\ app (this w') = Some a'
      /\ style_width a' = Some "800px"
      /\ style_height a' = Some "600px".
Proof.
  assert (Ha : app (this example_mounted) = Some example_app)
    by (vm_compute; reflexivity).
  split; [exact Ha |].
  exact (proj2 autoDensity_forced_off_but_css_sized
           example_mounted example_app Ha).
Defined.

Lemma renderStage_gate_witness :
  let w := initial_World 7 (defaultProps (VRef 1) OptUndefined) (VRef 2)
                         example_window 100 in
  ~ (raf (props (this w)) = false
     /\ renderOnComponentChange (props (this w)) = true)
  /\ exists w',
      renderStage w = Ok tt w'
      /\ this w' = this w /\ window w' = window w
      /\ next_ref w' = next_ref w
      /\ effects (trace w') = effects (trace w).
Proof.
  cbv zeta.
  assert (H : ~ (raf (props (this (initial_World 7
                    (defaultProps (VRef 1) OptUndefined) (VRef 2)
                    example_window 100))) = false
                 /\ renderOnComponentChange (props (this (initial_World 7
                    (defaultProps (VRef 1) OptUndefined) (VRef 2)
                    example_window 100))) = true))
    by (simpl; intros [Hraf _]; discriminate Hraf).
  split; [exact H |].
  exact (proj1 renderStage_gate _ H).
Defined.

(** * Further properties of the code *)

(** ** [getCanvasProps] as a projection *)

Lemma getCanvasProps_lookup (D : list string) (props : object) (k : string) :
  getCanvasProps D props !! k
  = if bool_decide (k ∈ reserved D) then None else props !! k.
Proof.
  unfold getCanvasProps. rewrite foldl_spread_lookup, lookup_empty.
  case_bool_decide as Hin; case_bool_decide as Hr; try reflexivity.
  - apply list_elem_of_In, filter_In in Hin as [_ Hf].
    unfold includes in Hf. by rewrite bool_decide_eq_true_2 in Hf.
  - apply list_elem_of_In, filter_In in Hin as [Hin _].
    apply list_elem_of_In, elem_of_Object_keys in Hin as [v Hv].
    unfold get. by rewrite Hv.
  - destruct (props !! k) as [v|] eqn:Hk; [| reflexivity].
    exfalso. apply Hin, list_elem_of_In, filter_In. split.
    + apply list_elem_of_In, elem_of_Object_keys. by exists v.
    + unfold includes. by rewrite bool_decide_eq_false_2.
Qed.

(** X1. Filtering is a projection: every entry of the result is an entry of
    the props, and filtering the result again changes nothing. *)
Theorem getCanvasProps_idempotent (D : list string) (props : object) :
  getCanvasProps D props ⊆ props
  /\ getCanvasProps D (getCanvasProps D props) = getCanvasProps D props.
Proof.
  split.
  - apply map_subseteq_spec. intros k v. rewrite getCanvasProps_lookup.
    by case_bool_decide.
  - apply map_eq. intros k. rewrite !getCanvasProps_lookup.
    by case_bool_decide.
Qed.

(** X2. The two ends: the props come back whole exactly when none of their
    keys is reserved, and the result is the empty object exactly when all of
    them are (so also for empty props). *)
Theorem getCanvasProps_all_or_nothing (D : list string) (props : object) :
  (getCanvasProps D props = props
   <-> forall k, is_Some (props !! k) -> k ∉ reserved D)
  /\ (getCanvasProps D props = ∅
      <-> forall k, is_Some (props !! k) -> k ∈ reserved D).
Proof.
  split; split.
  - intros Heq k [v Hk] Hr. rewrite <- Heq, getCanvasProps_lookup in Hk.
    by rewrite bool_decide_eq_true_2 in Hk.
  - intros H. apply map_eq. intros k. rewrite getCanvasProps_lookup.
    case_bool_decide as Hr; [| reflexivity].
    destruct (props !! k) as [v|] eqn:Hk; [| reflexivity].
    exfalso. by apply (H k); [exists v |].
  - intros Heq k [v Hk]. destruct (decide (k ∈ reserved D)) as [|Hn]; [done |].
    assert (Hl : getCanvasProps D props !! k = Some v).
    { rewrite getCanvasProps_lookup. by rewrite bool_decide_eq_false_2. }
    by rewrite Heq, lookup_empty in Hl.
  - intros H. apply map_eq. intros k.
    rewrite getCanvasProps_lookup, lookup_empty.
    case_bool_decide as Hr; [reflexivity |].
    destruct (props !! k) as [v|] eqn:Hk; [| reflexivity].
    exfalso. apply Hr, H. by exists v.
Qed.

(** ** The options handed to PIXI *)

(** X3. What [new Application] receives: [autoDensity] is [false]; every
    other own property of [options], present with whatever value, reaches it
    unchanged and wins over the component's own [width], [height] and [view];
    where [options] has no such key, [width] and [height] are the props and
    [view] is the canvas the component rendered; nothing else is passed. *)
Theorem application_config_lookup (p : Props) (canvas : value) (k : string) :
  application_config p canvas !! k
  = if bool_decide (k = "autoDensity") then Some (VBool false)
    else match options p with
         | OptObject _ f =>
             match f !! k with
             | Some v => Some v
             | None =>
                 if bool_decide (k = "view") then Some canvas
                 else if bool_decide (k = "height") then Some (VNum (height p))
                 else if bool_decide (k = "width") then Some (VNum (width p))
                 else None
             end
         | OptUndefined | OptNull =>
             if bool_decide (k = "view") then Some canvas
             else if bool_decide (k = "height") then Some (VNum (height p))
             else if bool_decide (k = "width") then Some (VNum (width p))
             else None
         end.
Proof.
  unfold application_config.
  assert (Hbase : forall k,
    (<["view" := canvas]>
       (<["height" := VNum (height p)]>
          (<["width" := VNum (width p)]> (∅ : object)))) !! k
    = if bool_decide (k = "view") then Some canvas
      else if bool_decide (k = "height") then Some (VNum (height p))
      else if bool_decide (k = "width") then Some (VNum (width p))
      else None).
  { intros j. repeat case_bool_decide; subst; simplify_map_eq; reflexivity. }
  case_bool_decide as Hk; [subst; apply lookup_insert_eq |].
  rewrite lookup_insert_ne by done.
  destruct (options p) as [| |oid f]; cbn [spread_options]; try apply Hbase.
  rewrite lookup_union, Hbase. destruct (f !! k) as [v|] eqn:Hf.
  - repeat case_bool_decide; reflexivity.
  - repeat case_bool_decide; reflexivity.
Qed.

(** ** Rules for [keeps] and [hoare] *)

Lemma keeps_ret {X A} (f : World -> X) (a : A) : keeps f (mret a).
Proof. by intros w. Qed.

Lemma keeps_bind {X A B} (f : World -> X) (m : M A) (k : A -> M B) :
  keeps f m -> (forall a, keeps f (k a)) -> keeps f (m ≫= k).
Proof.
  intros Hm Hk w. specialize (Hm w). unfold mbind, M_bind.
  destruct (m w) as [a w'|e w']; cbn in Hm.
  - by rewrite Hk.
  - exact Hm.
Qed.

Lemma keeps_when {X} (f : World -> X) (c : bool) (m : M unit) :
  keeps f m -> keeps f (when c m).
Proof. destruct c; [done | intros _; apply keeps_ret]. Qed.

Lemma keeps_read {X A} (f : World -> X) (g : World -> A) : keeps f (read g).
Proof. by intros w. Qed.

Lemma keeps_throw {X A} (f : World -> X) (e : exn) : keeps f (throw (A := A) e).
Proof. by intros w. Qed.

Lemma keeps_this_app {X} (f : World -> X) : keeps f this_app.
Proof. intros w. unfold this_app. by destruct (app (this w)). Qed.

Lemma keeps_member {X} (f : World -> X) (o : optionsProp) (k : string) :
  keeps f (member o k).
Proof. intros w. by destruct o. Qed.

Lemma hoare_ret {A} (P : World -> Prop) (a : A) :
  hoare P (mret a) (fun _ w => P w).
Proof. intros w HP a' w' E. by inversion E; subst. Qed.

Lemma hoare_bind {A B} (P : World -> Prop) (Q : A -> World -> Prop)
    (R : B -> World -> Prop) (m : M A) (k : A -> M B) :
  hoare P m Q -> (forall a, hoare (Q a) (k a) R) -> hoare P (m ≫= k) R.
Proof.
  intros Hm Hk w HP b w'' E. unfold mbind, M_bind in E.
  destruct (m w) as [a w'|e w'] eqn:Em; [| discriminate].
  exact (Hk a w' (Hm w HP a w' Em) b w'' E).
Qed.

Lemma hoare_conseq {A} (P P' : World -> Prop) (Q Q' : A -> World -> Prop)
    (m : M A) :
  (forall w, P' w -> P w) -> (forall a w, Q a w -> Q' a w) ->
  hoare P m Q -> hoare P' m Q'.
Proof. intros HP HQ Hm w HP' a w' E. eapply HQ, Hm; eauto. Qed.

(** Reading a value that the precondition determines. *)
Lemma hoare_read_bind {A B} (P : World -> Prop) (R : B -> World -> Prop)
    (g : World -> A) (k : A -> M B) (v : A) :
  (forall w, P w -> g w = v) -> hoare P (k v) R -> hoare P (read g ≫= k) R.
Proof.
  intros Hg Hk w HP b w' E. unfold mbind, M_bind, read in E.
  rewrite (Hg w HP) in E. eauto.
Qed.

(** A method that keeps an observation keeps every value of it. *)
Lemma hoare_keeps {X A} (f : World -> X) (m : M A) (v : X) :
  keeps f m -> hoare (fun w => f w = v) m (fun _ w => f w = v).
Proof.
  intros Hk w Hv a w' E. specialize (Hk w). rewrite E in Hk. cbn in Hk.
  by rewrite Hk.
Qed.

Lemma hoare_when (P Q : World -> Prop) (c : bool) (m : M unit) :
  (c = true -> hoare P m (fun _ => Q)) -> (c = false -> forall w, P w -> Q w) ->
  hoare P (when c m) (fun _ => Q).
Proof.
  destruct c; intros Ht Hf; [by apply Ht |].
  intros w HP a w' E. inversion E; subst. by apply Hf.
Qed.

(** Structural proof of [keeps]: binds, guards and case distinctions are
    taken apart, the methods are unfolded, and what is left is a primitive,
    whose effect on the observation is computed. *)
Ltac keeps_leaf :=
  let w := fresh "w" in
  intros w; destruct w as [[? ? ? ? [[]|] ?] [? ? ?] ? ?];
  try match goal with |- ?f _ = ?f _ => unfold f end;
  cbn; rewrite ?List.filter_app; cbn; rewrite ?app_nil_r; reflexivity.

Ltac keeps_auto :=
  repeat first
    [ apply keeps_ret
    | apply keeps_read
    | apply keeps_throw
    | apply keeps_this_app
    | apply keeps_member
    | apply keeps_when
    | apply keeps_bind; [| intros ?]
    | progress unfold set_app, ticker, resetInteractionManager, updateSize,
        renderStage, getChildren
    | match goal with
      | |- keeps _ (if ?c then _ else _) => destruct c
      | |- keeps _ (match ?o with Some _ => _ | None => _ end) => destruct o
      | |- keeps _ (emit (if ?c then _ else _)) => destruct c
      end
    | keeps_leaf ].

(** ** The renderer size and the ticker follow the props *)

Lemma number_strict_neq_false (a b : number) :
  number_strict_neq a b = false -> a = b.
Proof.
  unfold number_strict_neq, number_strict_eq.
  destruct a, b; cbn; try discriminate.
  intros H. apply negb_false_iff, bool_decide_eq_true in H. by subst.
Qed.

Lemma keeps_sync_resolution_block (o : optionsProp) :
  keeps sync_obs
    (_ ← this_app;
     r ← member o "resolution";
     set_app (with_resolution r);;
     resetInteractionManager).
Proof. unfold sync_obs. keeps_auto. Qed.

Lemma updateSize_sync (w : World) (a : Application) :
  app (this w) = Some a ->
  exists w',
    updateSize w = Ok tt w'
    /\ sync_obs w'
       = (props (this w),
          Some (Some (width (props (this w)), height (props (this w))),
                ticker_autoStart a, ticker_started a)).
Proof.
  intros Ha. open_world w. cbn in Ha. subst. destruct a. unfold sync_obs.
  exec; (eexists; split; reflexivity).
Qed.

Lemma ticker_sync (started : bool) (w : World) (a : Application) :
  app (this w) = Some a ->
  exists w',
    ticker started w = Ok tt w'
    /\ sync_obs w'
       = (props (this w),
          Some (renderer_size a, ticker_autoStart a, Some started)).
Proof.
  intros Ha. open_world w. cbn in Ha. subst. destruct a. unfold sync_obs.
  destruct started; exec; (eexists; split; reflexivity).
Qed.

(** What a returning [componentDidUpdate] does to the size and the ticker:
    the renderer takes the size of the props when [updateSize] runs, the
    ticker takes the state of [raf] when [raf] changed, and nothing else
    moves. *)
Lemma componentDidUpdate_sync (prevProps p : Props)
    (sz : option (number * number)) (au st : option bool) :
  hoare (fun w => sync_obs w = (p, Some (sz, au, st)))
    (componentDidUpdate prevProps)
    (fun _ w =>
       sync_obs w
       = (p, Some (if size_changed prevProps p
                   then Some (width p, height p) else sz,
                   au,
                   if negb (bool_decide (raf prevProps = raf p))
                   then Some (raf p) else st))).
Proof.
  unfold componentDidUpdate.
  apply hoare_read_bind with (v := p).
  { intros w H. unfold sync_obs in H. by inversion H. }
  eapply hoare_bind with (Q := fun _ w => sync_obs w = (p, Some (sz, au, st))).
  { apply hoare_keeps. keeps_auto. }
  intros changed.
  eapply hoare_bind with (Q := fun _ w => sync_obs w = (p, Some (sz, au, st))).
  { apply hoare_keeps, keeps_when, keeps_sync_resolution_block. }
  intros _. fold (size_changed prevProps p).
  eapply hoare_bind
    with (Q := fun _ w =>
                 sync_obs w
                 = (p, Some (if size_changed prevProps p
                             then Some (width p, height p) else sz, au, st))).
  { apply hoare_when.
    - intros Hc w H [] w' E. rewrite Hc.
      assert (Ha : exists a, app (this w) = Some a
                             /\ ticker_autoStart a = au /\ ticker_started a = st
                             /\ props (this w) = p).
      { unfold sync_obs in H. destruct (app (this w)) as [a|]; [| discriminate].
        exists a. by inversion H. }
      destruct Ha as (a & Ha & <- & <- & <-).
      destruct (updateSize_sync w a Ha) as (w1 & E1 & H1). congruence.
    - intros Hc w H. by rewrite Hc. }
  intros _.
  eapply hoare_bind
    with (Q := fun _ w =>
                 sync_obs w
                 = (p, Some (if size_changed prevProps p
                             then Some (width p, height p) else sz, au,
                             if negb (bool_decide (raf prevProps = raf p))
                             then Some (raf p) else st))).
  { apply hoare_when.
    - intros Hc w H [] w' E. rewrite Hc.
      assert (Ha : exists a, app (this w) = Some a
                             /\ renderer_size a
                                = (if size_changed prevProps p
                                   then Some (width p, height p) else sz)
                             /\ ticker_autoStart a = au
                             /\ props (this w) = p).
      { unfold sync_obs in H. destruct (app (this w)) as [a|]; [| discriminate].
        exists a. by inversion H. }
      destruct Ha as (a & Ha & <- & <- & <-).
      destruct (ticker_sync (raf (props (this w))) w a Ha) as (w1 & E1 & H1).
      congruence.
    - intros Hc w H. by rewrite Hc. }
  intros _. apply hoare_keeps. unfold sync_obs. keeps_auto.
Qed.

Lemma update_sync (p : Props) (prevProps : Props)
    (sz : option (number * number)) (au st : option bool) :
  hoare (fun w => sync_obs w = (prevProps, Some (sz, au, st)))
    (update p)
    (fun _ w =>
       sync_obs w
       = (p, Some (if size_changed prevProps p
                   then Some (width p, height p) else sz,
                   au,
                   if negb (bool_decide (raf prevProps = raf p))
                   then Some (raf p) else st))).
Proof.
  unfold update.
  apply hoare_read_bind with (v := prevProps).
  { intros w H. unfold sync_obs in H. by inversion H. }
  eapply hoare_bind with (Q := fun _ w => sync_obs w = (p, Some (sz, au, st))).
  { intros w H [] w' E. inversion E; subst. unfold sync_obs in *. cbn.
    by inversion H. }
  intros _. apply componentDidUpdate_sync.
Qed.

Lemma mount_sync (w : World) :
  let w' := final (componentDidMount w) in
  size_synced w' /\ ticker_synced w'.
Proof.
  open_world w. unfold size_synced, ticker_synced.
  destruct raf0, renderOnComponentChange0, matchMedia0; exec;
    (split; eexists; repeat split; reflexivity).
Qed.

Lemma size_changed_false (prevProps p : Props) :
  size_changed prevProps p = false ->
  width prevProps = width p /\ height prevProps = height p.
Proof.
  unfold size_changed. intros H.
  apply orb_false_iff in H as [H _]. apply orb_false_iff in H as [Hh Hw].
  split; by apply number_strict_neq_false.
Qed.

(** X4. The renderer is kept at the size of the props: it has the size of
    [width] and [height] after [componentDidMount] (whatever [options.width]
    and [options.height] say), after every run of [updateSize], and after
    every sequence of re-renders that return. *)
Theorem renderer_size_follows_props :
  (forall w : World, size_synced (final (componentDidMount w)))
  /\ (forall w : World,
        is_Some (app (this w)) ->
        returns (updateSize w) = true /\ size_synced (final (updateSize w)))
  /\ (forall (ps : list Props) (w : World),
        size_synced w ->
        returns (updates ps w) = true ->
        size_synced (final (updates ps w))).
Proof.
  split; [| split].
  - intros w. apply mount_sync.
  - intros w [a Ha]. destruct (updateSize_sync w a Ha) as (w' & E & H).
    rewrite E. split; [reflexivity |]. cbn [final].
    unfold sync_obs in H. unfold size_synced.
    destruct (app (this w')) as [a'|]; [| discriminate].
    exists a'. split; [reflexivity |]. inversion H. congruence.
  - induction ps as [|p ps IH]; intros w Hs Hr; [exact Hs |].
    cbn [updates] in *. unfold mbind, M_bind in *.
    destruct (update p w) as [[] w1|e w1] eqn:E; [| discriminate].
    apply IH; [| exact Hr].
    destruct Hs as (a & Ha & Hsz).
    assert (Hobs : sync_obs w
                   = (props (this w),
                      Some (renderer_size a, ticker_autoStart a,
                            ticker_started a)))
      by (unfold sync_obs; by rewrite Ha).
    pose proof (update_sync p _ _ _ _ w Hobs tt w1 E) as H1.
    unfold sync_obs in H1. unfold size_synced.
    destruct (app (this w1)) as [a1|]; [| discriminate].
    exists a1. split; [reflexivity |].
    destruct (size_changed (props (this w)) p) eqn:Hc;
      cbn in H1; injection H1 as Hp Hz _ _; rewrite Hp, Hz; [reflexivity |].
    destruct (size_changed_false _ _ Hc) as [Hw Hh].
    by rewrite Hsz, Hw, Hh.
Qed.

Lemma renderer_size_follows_props_witness :
  let ps := [example_props (VRef 1) (OptObject 9 ∅);
             mkProps (Fin 640) (Fin 480) noop noop true true (VRef 1)
                     (OptObject 9 ∅)] in
  size_synced example_mounted
  /\ returns (updates ps example_mounted) = true
  /\ (renderer_size <$> app (this (final (updates ps example_mounted))))
     = Some (Some (Fin 640, Fin 480))
  /\ size_synced (final (updates ps example_mounted)).
Proof.
  cbv zeta.
  assert (Hs : size_synced example_mounted)
    by (exists example_app; split; vm_compute; reflexivity).
  assert (Hr : returns (updates
                  [example_props (VRef 1) (OptObject 9 ∅);
                   mkProps (Fin 640) (Fin 480) noop noop true true (VRef 1)
                           (OptObject 9 ∅)] example_mounted) = true)
    by (vm_compute; reflexivity).
  split; [exact Hs |]. split; [exact Hr |].
  split; [vm_compute; reflexivity |].
  exact (proj2 (proj2 renderer_size_follows_props) _ _ Hs Hr).
Defined.

(** X5. The ticker follows [raf]: after [componentDidMount], after every run
    of [updateSize] and after every sequence of re-renders that return, the
    ticker's [autoStart] is off and the ticker is started exactly when the
    current [raf] prop is true. *)
Theorem ticker_follows_raf :
  (forall w : World, ticker_synced (final (componentDidMount w)))
  /\ (forall w : World,
        ticker_synced w -> ticker_synced (final (updateSize w)))
  /\ (forall (ps : list Props) (w : World),
        ticker_synced w ->
        returns (updates ps w) = true ->
        ticker_synced (final (updates ps w))).
Proof.
  split; [| split].
  - intros w. apply mount_sync.
  - intros w (a & Ha & Hau & Hst).
    destruct (updateSize_sync w a Ha) as (w' & E & H).
    rewrite E. cbn [final]. unfold sync_obs in H. unfold ticker_synced.
    destruct (app (this w')) as [a'|]; [| discriminate].
    exists a'. split; [reflexivity |]. inversion H. split; congruence.
  - induction ps as [|p ps IH]; intros w Hs Hr; [exact Hs |].
    cbn [updates] in *. unfold mbind, M_bind in *.
    destruct (update p w) as [[] w1|e w1] eqn:E; [| discriminate].
    apply IH; [| exact Hr].
    destruct Hs as (a & Ha & Hau & Hst).
    assert (Hobs : sync_obs w
                   = (props (this w),
                      Some (renderer_size a, ticker_autoStart a,
                            ticker_started a)))
      by (unfold sync_obs; by rewrite Ha).
    pose proof (update_sync p _ _ _ _ w Hobs tt w1 E) as H1.
    unfold sync_obs in H1. unfold ticker_synced.
    destruct (app (this w1)) as [a1|]; [| discriminate].
    exists a1. split; [reflexivity |].
    destruct (bool_decide (raf (props (this w)) = raf p)) eqn:Hraf;
      cbn in H1; injection H1 as Hp _ Ha1 Hs1; rewrite Hp, Ha1, Hs1;
      (split; [exact Hau |]); [| reflexivity].
    apply bool_decide_eq_true in Hraf. by rewrite Hst, Hraf.
Qed.

Lemma ticker_follows_raf_witness :
  let ps := [example_props (VRef 1) (OptObject 9 ∅);
             mkProps (Fin 640) (Fin 480) noop noop true true (VRef 1)
                     (OptObject 9 ∅)] in
  ticker_synced example_mounted
  /\ returns (updates ps example_mounted) = true
  /\ (ticker_started <$> app (this example_mounted)) = Some (Some false)
  /\ (ticker_started <$> app (this (final (updates ps example_mounted))))
     = Some (Some true)
  /\ ticker_synced (final (updates ps example_mounted)).
Proof.
  cbv zeta.
  assert (Hs : ticker_synced example_mounted)
    by (exists example_app; repeat split; vm_compute; reflexivity).
  assert (Hr : returns (updates
                  [example_props (VRef 1) (OptObject 9 ∅);
                   mkProps (Fin 640) (Fin 480) noop noop true true (VRef 1)
                           (OptObject 9 ∅)] example_mounted) = true)
    by (vm_compute; reflexivity).
  split; [exact Hs |]. split; [exact Hr |].
  split; [vm_compute; reflexivity |]. split; [vm_compute; reflexivity |].
  exact (proj2 (proj2 ticker_follows_raf) _ _ Hs Hr).
Defined.

(** ** What a re-render leaves alone *)

Lemma keeps_componentDidUpdate_fixed (prevProps : Props) :
  keeps fixed_at_mount (componentDidUpdate prevProps).
Proof. unfold componentDidUpdate. keeps_auto. Qed.

Lemma keeps_update_fixed (p : Props) : keeps fixed_at_mount (update p).
Proof.
  unfold update. apply keeps_bind; [apply keeps_read | intros prevProps].
  apply keeps_bind; [keeps_leaf | intros _].
  apply keeps_componentDidUpdate_fixed.
Qed.

Lemma keeps_updates_fixed (ps : list Props) :
  keeps fixed_at_mount (updates ps).
Proof.
  induction ps as [|p ps IH]; [apply keeps_ret |].
  cbn [updates]. apply keeps_bind; [apply keeps_update_fixed | intros _; exact IH].
Qed.

(** X6. Re-renders are confined: whether they return or throw, they never
    construct or destroy an application, never create a container, never add
    or remove a listener of the window or of the media query, never call
    [onMount], [onUnmount] or the console; the root container, the canvas,
    the media query and the application's identity and configuration stay
    those of the mount. *)
Theorem rerenders_keep_what_mount_fixed (ps : list Props) (w : World) :
  fixed_at_mount (final (updates ps w)) = fixed_at_mount w.
Proof. revert w. exact (keeps_updates_fixed ps). Qed.

(** ** The commits of re-renders *)

Lemma filter_commit_quiet (es : list event) :
  forallb quiet es = true -> List.filter is_commit es = [].
Proof.
  induction es as [|e es IH]; [done |]. cbn. intros H.
  apply andb_true_iff in H as [He Hes]. rewrite (IH Hes).
  unfold quiet in He. by destruct (is_commit e).
Qed.

Lemma rerenders_before_throw_le (prevProps : Props) (ps : list Props) :
  rerenders_before_throw prevProps ps <= length ps.
Proof.
  revert prevProps. induction ps as [|p ps IH]; intros prevProps; cbn; [lia |].
  destruct (_ && _); [lia |]. specialize (IH p). lia.
Qed.

Lemma updates_commits (ps : list Props) (w : World) (a : Application)
    (root : nat) :
  mounted w a root ->
  exists es,
    trace (final (updates ps w)) = trace w ++ es
    /\ List.filter is_commit es
       = commit_of a root
           <$> take (rerenders_before_throw (props (this w)) ps) ps
    /\ returns (updates ps w)
       = bool_decide (rerenders_before_throw (props (this w)) ps = length ps).
Proof.
  revert w a. induction ps as [|p ps IH]; intros w a Hm.
  - exists []. cbn. rewrite app_nil_r. auto.
  - cbn [updates rerenders_before_throw].
    pose proof (update_run p w a root Hm) as H. cbv zeta in H.
    destruct (truthy (opt_chain (options p) "resolution")
              && nullish (options (props (this w)))).
    + destruct H as [e E]. rewrite (bind_Throw _ _ _ _ _ E).
      exists []. cbn. rewrite app_nil_r. auto.
    + destruct H as (w4 & F & E). rewrite (bind_Ok _ _ _ _ _ E).
      destruct Hm as [Ha Hroot].
      destruct (frame_app _ _ F a Ha) as (a4 & Ha4 & Hid & _).
      destruct (frame_trace _ _ F) as (es0 & T0 & Q0). cbn in T0.
      pose proof (frame_props _ _ F) as Hp. cbn in Hp.
      set (tail := if props_changed (props (this w)) p
                   then Invoke MRenderStage
                        :: (if negb (raf p) && renderOnComponentChange p
                            then [RendererRender (app_stage a)] else [])
                   else []) in *.
      set (w' := add_events (UpdateContainer
                               (EAppProvider (Some (app_id a)) (children p))
                               (Some root) :: tail) w4) in *.
      assert (Hm' : mounted w' a4 root).
      { split; cbn; [exact Ha4 |]. by rewrite (frame_mountNode _ _ F). }
      assert (Hp' : props (this w') = p) by exact Hp.
      destruct (IH w' a4 Hm') as (es & T & C & Hr). rewrite Hp' in C, Hr.
      exists (es0 ++ (commit_of a root p :: tail) ++ es).
      split; [| split].
      * rewrite T. subst w'. rewrite trace_add_events, T0.
        unfold commit_of. by rewrite <- !app_assoc.
      * rewrite !List.filter_app, (filter_commit_quiet _ Q0), C.
        assert (Htail : List.filter is_commit tail = []).
        { subst tail. destruct (props_changed _ _); [| done].
          by destruct (negb (raf p) && renderOnComponentChange p). }
        cbn. rewrite Htail. cbn. unfold commit_of. by rewrite Hid.
      * rewrite Hr. cbn [length].
        apply bool_decide_ext. lia.
Qed.

(** X7. Every commit that re-renders of a mounted stage make goes to the
    root container created at mount and provides the application of the
    mount.  The commits are, in order, those of the children of the
    successive props, exactly one for each re-render before the first that
    throws and none for that one or for any after it; the re-renders all
    return exactly when none of them throws, and then there is one commit
    for each. *)
Theorem rerenders_commit_to_the_mount_root (ps : list Props) (w : World)
    (a : Application) (root : nat) :
  mounted w a root ->
  let n := rerenders_before_throw (props (this w)) ps in
  List.filter is_commit (emitted (updates ps) w)
  = commit_of a root <$> take n ps
  /\ n <= length ps
  /\ (returns (updates ps w) = true <-> n = length ps).
Proof.
  intros Hm n. destruct (updates_commits ps w a root Hm) as (es & T & C & R).
  rewrite (emitted_eq _ _ _ T), R, bool_decide_eq_true.
  split; [exact C |]. split; [apply rerenders_before_throw_le | reflexivity].
Qed.

Lemma rerenders_commit_to_the_mount_root_witness :
  let p1 := example_props (VRef 3) OptUndefined in
  let p2 := example_props (VRef 4)
              (OptObject 9 (<["resolution" := VNum (Fin 3)]> ∅)) in
  let p3 := example_props (VRef 5) OptUndefined in
  mounted example_mounted example_app 104
  /\ rerenders_before_throw (props (this example_mounted)) [p1; p2; p3] = 1
  /\ List.filter is_commit (emitted (updates [p1; p2; p3]) example_mounted)
     = [commit_of example_app 104 p1]
  /\ returns (updates [p1; p2; p3] example_mounted) = false.
Proof.
  cbv zeta.
  assert (Hm : mounted example_mounted example_app 104)
    by (split; vm_compute; reflexivity).
  assert (Hn : rerenders_before_throw (props (this example_mounted))
                 [example_props (VRef 3) OptUndefined;
                  example_props (VRef 4)
                    (OptObject 9 (<["resolution" := VNum (Fin 3)]> ∅));
                  example_props (VRef 5) OptUndefined] = 1)
    by (vm_compute; reflexivity).
  pose proof (rerenders_commit_to_the_mount_root
                [example_props (VRef 3) OptUndefined;
                 example_props (VRef 4)
                   (OptObject 9 (<["resolution" := VNum (Fin 3)]> ∅));
                 example_props (VRef 5) OptUndefined]
                example_mounted example_app 104 Hm) as H.
  cbv zeta in H. rewrite Hn in H. destruct H as (C & _ & R).
  split; [exact Hm |]. split; [exact Hn |]. split; [exact C |].
  destruct (returns _); [| reflexivity].
  exfalso. destruct R as [R _]. specialize (R eq_refl). discriminate R.
Defined.

(** ** The media query *)

Lemma filter_mediaQuery_lifecycle (t : list event) :
  List.filter is_mediaQuery_event (List.filter lifecycle_event t)
  = List.filter is_mediaQuery_event t.
Proof.
  induction t as [|e t IH]; [done |]. cbn.
  destruct e; cbn; by rewrite ?IH.
Qed.

Lemma mount_mediaQuery (me : nat) (p : Props) (canvas : value) (win : Window)
    (next : nat) :
  let w' := final (componentDidMount (initial_World me p canvas win next)) in
  if watches_pixel_ratio p win
  then exists mq,
      _mediaQuery (this w') = Some mq
      /\ List.filter is_mediaQuery_event (trace w')
         = [MatchMedia mq; MqAddListener mq (UpdateSizeOf me)]
  else _mediaQuery (this w') = None
       /\ List.filter is_mediaQuery_event (trace w') = [].
Proof.
  destruct p as [? ? ? ? rf rc ? ?], win as [? mm ?].
  unfold watches_pixel_ratio, initial_World, new_Stage.
  cbn [options matchMedia].
  destruct rf, rc, mm; exec; cbn;
    first [ eexists; split; reflexivity | split; reflexivity ].
Qed.

Lemma unmount_mediaQuery (w : World) :
  let w' := final (componentWillUnmount w) in
  _mediaQuery (this w') = None
  /\ exists es,
      trace w' = trace w ++ es
      /\ List.filter is_mediaQuery_event es
         = match _mediaQuery (this w) with
           | Some q => [MqRemoveListener q (UpdateSizeOf (self (this w)))]
           | None => []
           end.
Proof.
  open_world w.
  destruct raf0, renderOnComponentChange0, _mediaQuery0 as [q|],
    app0 as [a|]; exec;
    (split; [reflexivity |]; rewrite <- ?app_assoc; eexists;
     split; reflexivity).
Qed.

(** X8. The media query is watched exactly while it is needed: a stage
    listens for changes of the device pixel ratio from mount when CSS sizing
    is on, [window.matchMedia] exists and no resolution is given; re-renders
    neither add nor remove the listener; unmounting removes the very listener
    that mount added, from the same media query, and forgets the query.  In
    every other configuration the media query is never touched. *)
Theorem media_query_listener_balanced (me : nat) (p : Props) (canvas : value)
    (win : Window) (next : nat) (ps : list Props) :
  let w1 := final (componentDidMount (initial_World me p canvas win next)) in
  let w2 := final (updates ps w1) in
  let w3 := final (componentWillUnmount w2) in
  _mediaQuery (this w3) = None
  /\ if watches_pixel_ratio p win
     then exists mq,
         _mediaQuery (this w2) = Some mq
         /\ List.filter is_mediaQuery_event (trace w3)
            = [MatchMedia mq; MqAddListener mq (UpdateSizeOf me);
               MqRemoveListener mq (UpdateSizeOf me)]
     else _mediaQuery (this w2) = None
          /\ List.filter is_mediaQuery_event (trace w3) = [].
Proof.
  intros w1 w2 w3.
  pose proof (mount_mediaQuery me p canvas win next) as H1. fold w1 in H1.
  pose proof (keeps_updates_fixed ps w1) as H2. fold w2 in H2.
  unfold fixed_at_mount in H2. injection H2 as Hself _ Hmq _ _ _ Htr.
  assert (Hme : self (this w1) = me).
  { destruct (mount_listeners (initial_World me p canvas win next))
      as (_ & Hs & _). exact Hs. }
  apply (f_equal (List.filter is_mediaQuery_event)) in Htr.
  rewrite !filter_mediaQuery_lifecycle in Htr.
  destruct (unmount_mediaQuery w2) as (H3 & es & T & Hes). fold w3 in H3, T.
  split; [exact H3 |].
  destruct (watches_pixel_ratio p win).
  - destruct H1 as (mq & Hq & Ht). exists mq. split; [congruence |].
    rewrite T, List.filter_app, Htr, Ht, Hes, Hmq, Hq, Hself, Hme. reflexivity.
  - destruct H1 as (Hq & Ht). split; [congruence |].
    rewrite T, List.filter_app, Htr, Ht, Hes, Hmq, Hq. reflexivity.
Qed.

(** ** Resets of the interaction manager *)

Lemma reset_block_interaction (oid : nat) (f : object) (w : World)
    (a : Application) :
  app (this w) = Some a ->
  exists w',
    (_ ← this_app;
     r ← member (OptObject oid f) "resolution";
     set_app (with_resolution r);;
     resetInteractionManager) w = Ok tt w'
    /\ interaction_obs w'
       = (props (this w), Some (next_ref w, renderer_id a), S (next_ref w),
          List.filter is_interaction_event (trace w)
          ++ [InteractionDestroy (interaction a);
              NewInteractionManager (next_ref w) (renderer_id a)]).
Proof.
  intros Ha. open_world w. cbn in Ha. subst. destruct a.
  unfold interaction_obs. run. eexists. split; [reflexivity |]. cbn.
  rewrite !List.filter_app. cbn. by rewrite <- app_assoc.
Qed.

Lemma updateSize_interaction (w : World) (a : Application) :
  app (this w) = Some a ->
  exists w',
    updateSize w = Ok tt w'
    /\ interaction_obs w'
       = if truthy (opt_chain (options (props (this w))) "resolution")
         then interaction_obs w
         else (props (this w), Some (next_ref w, renderer_id a),
               S (next_ref w),
               List.filter is_interaction_event (trace w)
               ++ [InteractionDestroy (interaction a);
                   NewInteractionManager (next_ref w) (renderer_id a)]).
Proof.
  intros Ha. open_world w. cbn in Ha. subst. destruct a.
  unfold interaction_obs. cbn [props this options].
  exec; (eexists; split; [reflexivity |]); cbn;
    rewrite !List.filter_app; cbn; by rewrite <- ?app_assoc, ?app_nil_r.
Qed.

Lemma keeps_ticker_interaction (started : bool) :
  keeps interaction_obs (ticker started).
Proof. keeps_auto. Qed.

(** What a returning [componentDidUpdate] does to the interaction manager. *)
Lemma componentDidUpdate_interaction (prevProps p : Props) (im rid n : nat)
    (t : list event) :
  hoare (fun w => interaction_obs w = (p, Some (im, rid), n, t))
    (componentDidUpdate prevProps)
    (fun _ w =>
       interaction_obs w
       = if resets_interaction prevProps p
         then (p, Some (n, rid), S n,
               t ++ [InteractionDestroy im; NewInteractionManager n rid])
         else (p, Some (im, rid), n, t)).
Proof.
  assert (Hget : forall w, interaction_obs w = (p, Some (im, rid), n, t) ->
            exists a, app (this w) = Some a /\ props (this w) = p
                      /\ interaction a = im /\ renderer_id a = rid
                      /\ next_ref w = n
                      /\ List.filter is_interaction_event (trace w) = t).
  { intros w H. unfold interaction_obs in H.
    destruct (app (this w)) as [a|]; [| discriminate].
    exists a. by inversion H. }
  unfold componentDidUpdate.
  apply hoare_read_bind with (v := p).
  { intros w H. by destruct (Hget w H) as (a & _ & Hp & _). }
  pose (res := opt_chain (options p) "resolution").
  pose (changed := truthy res
                  && strict_neq (opt_chain (options prevProps) "resolution") res).
  eapply hoare_bind
    with (Q := fun c w => interaction_obs w = (p, Some (im, rid), n, t)
                          /\ c = changed).
  { intros w H c w' E. subst changed res.
    destruct (truthy (opt_chain (options p) "resolution")).
    2:{ inversion E; subst. split; [exact H | reflexivity]. }
    destruct (options prevProps); cbn in E; try discriminate.
    inversion E; subst. split; [exact H | reflexivity]. }
  intros c.
  eapply hoare_bind
    with (Q := fun _ w =>
                 interaction_obs w
                 = if changed
                   then (p, Some (n, rid), S n,
                         t ++ [InteractionDestroy im;
                               NewInteractionManager n rid])
                   else (p, Some (im, rid), n, t)).
  { intros w [H Hc] [] w' E. subst c. destruct changed eqn:Hch; cbn [when] in E.
    - destruct (Hget w H) as (a & Ha & Hp & <- & <- & <- & <-).
      subst changed res. apply andb_true_iff in Hch as [Hres _].
      destruct (options p) as [| |oid f]; cbn in Hres; try discriminate.
      destruct (reset_block_interaction oid f w a Ha) as (w1 & E1 & H1).
      congruence.
    - inversion E; subst. exact H. }
  intros _. fold (size_changed prevProps p).
  eapply hoare_bind
    with (Q := fun _ w =>
                 interaction_obs w
                 = if resets_interaction prevProps p
                   then (p, Some (n, rid), S n,
                         t ++ [InteractionDestroy im;
                               NewInteractionManager n rid])
                   else (p, Some (im, rid), n, t)).
  { change (resets_interaction prevProps p)
      with (changed || negb (truthy res) && size_changed prevProps p).
    apply hoare_when.
    - intros Hc w H [] w' E. rewrite Hc, andb_true_r.
      destruct changed eqn:Hch.
      + (* the resolution block has reset: the resolution is truthy *)
        assert (Hres : truthy res = true)
          by (subst changed; by apply andb_true_iff in Hch as [? _]).
        assert (Ha : exists a, app (this w) = Some a /\ props (this w) = p).
        { unfold interaction_obs in H.
          destruct (app (this w)) as [a|]; [| discriminate].
          exists a. by inversion H. }
        destruct Ha as (a & Ha & Hp).
        destruct (updateSize_interaction w a Ha) as (w1 & E1 & H1).
        rewrite Hp in H1. change (opt_chain (options p) "resolution") with res in H1.
        rewrite Hres in H1. cbn. congruence.
      + destruct (Hget w H) as (a & Ha & Hp & <- & <- & <- & <-).
        destruct (updateSize_interaction w a Ha) as (w1 & E1 & H1).
        rewrite Hp in H1. change (opt_chain (options p) "resolution") with res in H1.
        cbn. destruct (truthy res); cbn; congruence.
    - intros Hc w H. rewrite Hc, andb_false_r, orb_false_r. exact H. }
  intros _.
  eapply hoare_bind; [apply hoare_keeps, keeps_when, keeps_ticker_interaction |].
  intros ?. cbv beta. apply hoare_keeps. keeps_auto.
Qed.

(** X9. A re-render that returns resets the interaction manager at most
    once: the "update resolution" block and [updateSize] never both do it.
    It happens exactly when the new resolution is truthy and differs from
    the previous one, or there is no resolution and the size or the
    resolution changed; then the manager in use is destroyed and a new one,
    of an identity not used before, is installed on the same renderer.
    Otherwise the manager in use stays. *)
Theorem rerender_resets_interaction_at_most_once (p : Props) (w : World)
    (a : Application) (root : nat) :
  mounted w a root ->
  returns (update p w) = true ->
  let w' := final (update p w) in
  List.filter is_interaction_event (emitted (update p) w)
  = (if resets_interaction (props (this w)) p
     then [InteractionDestroy (interaction a);
           NewInteractionManager (next_ref w) (renderer_id a)]
     else [])
  /\ (interaction <$> app (this w'))
     = Some (if resets_interaction (props (this w)) p
             then next_ref w else interaction a)
  /\ (renderer_id <$> app (this w')) = Some (renderer_id a).
Proof.
  intros Hm Hret w'. subst w'.
  pose proof (update_run p w a root Hm) as Hrun. cbv zeta in Hrun.
  destruct (truthy (opt_chain (options p) "resolution")
            && nullish (options (props (this w)))).
  { destruct Hrun as [e E]. rewrite E in Hret. discriminate. }
  destruct Hrun as (w4 & F & E).
  destruct (frame_trace _ _ F) as (es0 & T0 & _). cbn in T0.
  set (w' := add_events _ w4) in E.
  assert (T : exists es, trace w' = trace w ++ es).
  { subst w'. rewrite trace_add_events, T0. eexists.
    by rewrite <- app_assoc. }
  destruct T as (es & T).
  destruct Hm as [Ha Hroot].
  pose proof (componentDidUpdate_interaction (props (this w)) p
                (interaction a) (renderer_id a) (next_ref w)
                (List.filter is_interaction_event (trace w))) as H.
  rewrite update_unfold in E.
  assert (Hobs : interaction_obs
                   {| this := with_props p (this w); window := window w;
                      trace := trace w; next_ref := next_ref w |}
                 = (p, Some (interaction a, renderer_id a), next_ref w,
                    List.filter is_interaction_event (trace w))).
  { unfold interaction_obs, with_props.
    cbn [this app props next_ref trace]. by rewrite Ha. }
  specialize (H _ Hobs tt w' E).
  rewrite (emitted_eq (update p) w es)
    by (rewrite update_unfold, E; exact T).
  rewrite update_unfold, E. cbn [final].
  unfold interaction_obs in H. rewrite T, List.filter_app in H.
  destruct (app (this w')) as [a'|];
    [| by destruct (resets_interaction _ _)].
  destruct (resets_interaction (props (this w)) p);
    cbn in H; injection H as _ Hi Hr _ Ht; cbn; rewrite Hi, Hr;
    (split; [| split; reflexivity]).
  - by apply app_inv_head in Ht.
  - rewrite <- (app_nil_r (List.filter _ (trace w))) in Ht at 2.
    by apply app_inv_head in Ht.
Qed.

Lemma rerender_resets_interaction_at_most_once_witness :
  let p := mkProps (Fin 640) (Fin 480) noop noop false true (VRef 1)
                   OptUndefined in
  mounted example_mounted example_app 104
  /\ returns (update p example_mounted) = true
  /\ List.filter is_interaction_event (emitted (update p) example_mounted)
     = [InteractionDestroy 106; NewInteractionManager 107 102]
  /\ (interaction <$> app (this (final (update p example_mounted))))
     = Some 107
  /\ (renderer_id <$> app (this (final (update p example_mounted))))
     = Some 102.
Proof.
  cbv zeta.
  assert (Hm : mounted example_mounted example_app 104)
    by (split; vm_compute; reflexivity).
  assert (Hr : returns (update (mkProps (Fin 640) (Fin 480) noop noop false
                                  true (VRef 1) OptUndefined)
                          example_mounted) = true)
    by (vm_compute; reflexivity).
  split; [exact Hm |]. split; [exact Hr |].
  exact (rerender_resets_interaction_at_most_once _ _ _ _ Hm Hr).
Defined.

(** ** [updateSize], run again *)

(** X10. Running [updateSize] twice in a row on a mounted stage leaves the
    application as one run does, the identity of the interaction manager
    apart, which is rebuilt on every run without a resolution: size,
    resolution and CSS size settle after the first run. *)
Theorem updateSize_settles (w : World) (a : Application) :
  app (this w) = Some a ->
  let w1 := final (updateSize w) in
  let w2 := final (updateSize w1) in
  returns (updateSize w) = true
  /\ returns (updateSize w1) = true
  /\ (app_but_interaction <$> app (this w2))
     = (app_but_interaction <$> app (this w1))
  /\ fixed_at_mount w2 = fixed_at_mount w.
Proof.
  intros Ha. open_world w. cbn in Ha. subst. destruct a.
  unfold fixed_at_mount. exec; try congruence; cbn;
    rewrite ?List.filter_app; cbn; rewrite ?app_nil_r; repeat split.
Qed.

Lemma updateSize_settles_witness :
  app (this example_mounted) = Some example_app
  /\ returns (updateSize example_mounted) = true
  /\ (app_but_interaction
        <$> app (this (final (updateSize (final (updateSize example_mounted))))))
     = (app_but_interaction <$> app (this (final (updateSize example_mounted)))).
Proof.
  assert (Ha : app (this example_mounted) = Some example_app)
    by (vm_compute; reflexivity).
  destruct (updateSize_settles example_mounted example_app Ha)
    as (H1 & _ & H2 & _).
  split; [exact Ha |]. split; [exact H1 | exact H2].
Defined.

(** ** [render] *)

Lemma props_object_lookup (p : Props) (rest : object) (k : string) :
  k ∉ propTypes_keys -> props_object p rest !! k = rest !! k.
Proof.
  intros Hk. unfold props_object, propTypes_keys in *.
  rewrite !not_elem_of_cons in Hk.
  destruct Hk as (? & ? & ? & ? & ? & ? & ? & ? & _).
  by rewrite !lookup_insert_ne by done.
Qed.

Lemma getCanvasProps_props_object (D : list string) (p : Props)
    (rest : object) :
  getCanvasProps D (props_object p rest) = getCanvasProps D rest.
Proof.
  apply map_eq. intros k. rewrite !getCanvasProps_lookup.
  case_bool_decide as Hr; [reflexivity |].
  apply props_object_lookup. intros Hin. apply Hr.
  unfold reserved. apply elem_of_app. by left.
Qed.

(** X11. When [render] renders a canvas, the canvas receives exactly the
    other props given to [<Stage>] that are not display-object props; none of
    the props [Stage] declares ([width], [height], [options], ...) is ever
    forwarded, whatever their values. *)
Theorem render_forwards_only_other_props (classOf : nat -> domClass)
    (D : list string) (p : Props) (rest attributes : object) :
  render classOf D p rest = RenderCanvas attributes ->
  attributes = getCanvasProps D rest
  /\ forall k, k ∈ propTypes_keys -> attributes !! k = None.
Proof.
  intros H.
  assert (Ha : attributes = getCanvasProps D (props_object p rest)).
  { unfold render in H. destruct (options p) as [| |oid f].
    - by inversion H.
    - by inversion H.
    - destruct (truthy (get f "view")); [| by inversion H].
      by destruct (invariant _ _). }
  rewrite getCanvasProps_props_object in Ha. split; [exact Ha |].
  intros k Hk. rewrite Ha, getCanvasProps_lookup.
  rewrite bool_decide_eq_true_2; [reflexivity |].
  unfold reserved. apply elem_of_app. by left.
Qed.

Lemma render_forwards_only_other_props_witness :
  let rest : object := <["className" := VStr "stage"]> (<["x" := VNum (Fin 4)]> ∅) in
  let p := example_props (VRef 1) OptUndefined in
  render example_classOf ["x"] p rest
  = RenderCanvas (<["className" := VStr "stage"]> ∅)
  /\ (<["className" := VStr "stage"]> ∅ : object) = getCanvasProps ["x"] rest.
Proof.
  cbv zeta.
  assert (H : render example_classOf ["x"]
                (example_props (VRef 1) OptUndefined)
                (<["className" := VStr "stage"]> (<["x" := VNum (Fin 4)]> ∅))
              = RenderCanvas (<["className" := VStr "stage"]> ∅))
    by (vm_compute; reflexivity).
  split; [exact H |].
  exact (proj1 (render_forwards_only_other_props _ _ _ _ _ H)).
Defined.

Lemma application_config_view (p : Props) (canvas : value) :
  application_config p canvas !! "view"
  = match options p with
    | OptObject _ f =>
        match f !! "view" with Some v => Some v | None => Some canvas end
    | OptUndefined | OptNull => Some canvas
    end.
Proof.
  unfold application_config. rewrite lookup_insert_ne by done.
  destruct (options p) as [| |oid f]; cbn [spread_options].
  - apply lookup_insert_eq.
  - apply lookup_insert_eq.
  - rewrite lookup_union. destruct (f !! "view") as [v|].
    + by rewrite lookup_insert_eq.
    + by rewrite lookup_insert_eq.
Qed.

(** X12. Where the stage draws.  When [render] returns [null], [options.view]
    is a canvas element and the application is constructed on it, whatever
    [_canvas] holds.  When [render] renders a canvas, the application is
    constructed on that canvas ([_canvas]) only if [options] has no own
    [view] property; an own [view] that is falsy ([null], [undefined], [0],
    the empty string) still replaces it.  When [render] throws,
    [options.view] is truthy and no canvas element. *)
Theorem render_and_application_view (classOf : nat -> domClass)
    (D : list string) (p : Props) (rest : object) (canvas : value) :
  match render classOf D p rest with
  | RenderNull =>
      exists v, instanceof_HTMLCanvasElement classOf v = true
                /\ application_config p canvas !! "view" = Some v
  | RenderCanvas _ =>
      match options p with
      | OptObject _ f =>
          match f !! "view" with
          | Some v => truthy v = false
                      /\ application_config p canvas !! "view" = Some v
          | None => application_config p canvas !! "view" = Some canvas
          end
      | OptUndefined | OptNull =>
          application_config p canvas !! "view" = Some canvas
      end
  | RenderThrows _ =>
      truthy (opt_chain (options p) "view") = true
      /\ instanceof_HTMLCanvasElement classOf (opt_chain (options p) "view")
         = false
  end.
Proof.
  rewrite application_config_view. unfold render, opt_chain.
  destruct (options p) as [| |oid f]; [reflexivity | reflexivity |].
  unfold get, default. destruct (f !! "view") as [v|]; cbn [from_option id].
  - destruct (truthy v) eqn:Ht; [| by split].
    unfold invariant.
    destruct (instanceof_HTMLCanvasElement classOf v) eqn:Hc; [| by split].
    by exists v.
  - reflexivity.
Qed.

(** ** The validators of [options] *)

(** X13. The [view] validator passes exactly [undefined] and canvas elements,
    so options that pass it never make [render] throw.  The [resizeTo]
    validator passes a value exactly when it is neither the [window] nor an
    HTML element: it throws for the very values its message asks for, and
    passes [undefined]. *)
Theorem validators_of_options (classOf : nat -> domClass)
    (typeof_ref : nat -> string) (D : list string) :
  (forall (props : object) (componentName : string),
      validate_view classOf typeof_ref props "view" componentName = Passed
      <-> get props "view" = VUndefined
          \/ instanceof_HTMLCanvasElement classOf (get props "view") = true)
  /\ (forall (p : Props) (rest : object) oid f componentName,
        options p = OptObject oid f ->
        validate_view classOf typeof_ref f "view" componentName = Passed ->
        forall message, render classOf D p rest <> RenderThrows message)
  /\ (forall (props : object) (componentName : string),
        validate_resizeTo classOf typeof_ref props "resizeTo" componentName
        = Passed
        <-> is_window classOf (get props "resizeTo") = false
            /\ instanceof_HTMLElement classOf (get props "resizeTo") = false).
Proof.
  assert (Hview : forall (props : object) (componentName : string),
      validate_view classOf typeof_ref props "view" componentName = Passed
      <-> get props "view" = VUndefined
          \/ instanceof_HTMLCanvasElement classOf (get props "view") = true).
  { intros props name. unfold validate_view, invariant. cbv zeta.
    destruct (get props "view") as [| |b|n|s|r] eqn:Hv; cbn;
      try (split; [discriminate | intros [? | ?]; discriminate]).
    - split; auto.
    - destruct (bool_decide (classOf r = CanvasElement));
        [split; auto | split; [discriminate | intros [? | ?]; discriminate]]. }
  split; [exact Hview | split].
  - intros p rest oid f name Hp Hv message. apply Hview in Hv.
    unfold render. rewrite Hp.
    destruct Hv as [Hv | Hv].
    + rewrite Hv. discriminate.
    + destruct (truthy (get f "view")); [| discriminate].
      rewrite Hv. discriminate.
  - intros props name. unfold validate_resizeTo, invariant. cbv zeta.
    destruct (is_window classOf (get props "resizeTo")),
      (instanceof_HTMLElement classOf (get props "resizeTo")); cbn;
      (split; [try discriminate; auto | intros [? ?]; try discriminate; auto]).
Qed.

Lemma validators_of_options_witness :
  let f : object := <["view" := VRef 50]> ∅ in
  let p := example_props (VRef 1) (OptObject 9 f) in
  options p = OptObject 9 f
  /\ validate_view example_classOf (fun _ => "object") f "view" "Stage"
     = Passed
  /\ render example_classOf [] p ∅ = RenderNull
  /\ (forall message, render example_classOf [] p ∅ <> RenderThrows message)
  /\ validate_resizeTo example_classOf (fun _ => "object")
       (<["resizeTo" := VRef 52]> ∅) "resizeTo" "Stage"
     = InvariantViolation
         "Invalid prop `resizeTo` of type object, expect `window` or an `HTMLElement`.".
Proof.
  cbv zeta.
  assert (Hp : options (example_props (VRef 1)
                          (OptObject 9 (<["view" := VRef 50]> ∅)))
               = OptObject 9 (<["view" := VRef 50]> ∅)) by reflexivity.
  assert (Hv : validate_view example_classOf (fun _ => "object")
                 (<["view" := VRef 50]> ∅) "view" "Stage" = Passed)
    by (vm_compute; reflexivity).
  split; [exact Hp |]. split; [exact Hv |].
  split; [vm_compute; reflexivity |].
  split; [| vm_compute; reflexivity].
  exact (proj1 (proj2 (validators_of_options example_classOf
                         (fun _ => "object") []))
           _ ∅ 9 _ "Stage" Hp Hv).
Defined.

(** ** The whole life of a stage *)

Lemma mount_lifecycle (me : nat) (p : Props) (canvas : value) (win : Window)
    (next : nat) :
  let w' := final (componentDidMount (initial_World me p canvas win next)) in
  mounted w'
    (default example_app (app (this w'))) (4 + next)
  /\ app_id (default example_app (app (this w'))) = next
  /\ props (this w') = p
  /\ _mediaQuery (this w')
     = (if watches_pixel_ratio p win then Some (5 + next) else None)
  /\ List.filter lifecycle_event (trace w')
     = [NewApplication next (application_config p canvas);
        CreateContainer (1 + next) (4 + next);
        InjectDevtools;
        CallOnMount (onMount p) next]
       ++ (if watches_pixel_ratio p win
           then [MatchMedia (5 + next);
                 MqAddListener (5 + next) (UpdateSizeOf me)]
           else [])
       ++ (if renderOnComponentChange p && negb (raf p)
           then [AddEventListener REQUEST_RENDER (RenderStageOf me)]
           else []).
Proof.
  destruct p as [? ? ? ? rf rc ? ?], win as [? mm ?].
  unfold watches_pixel_ratio, initial_World, new_Stage, mounted.
  cbn [options matchMedia raf renderOnComponentChange onMount].
  destruct rf, rc, mm; exec; cbn; repeat split.
Qed.

Lemma unmount_lifecycle (w : World) (a : Application) (root : nat) :
  mounted w a root ->
  exists w' es,
    componentWillUnmount w = Ok tt w'
    /\ trace w' = trace w ++ es
    /\ List.filter lifecycle_event es
       = [CallOnUnmount (onUnmount (props (this w))) (Some (app_id a));
          RemoveEventListener REQUEST_RENDER (RenderStageOf (self (this w)))]
         ++ match _mediaQuery (this w) with
            | Some q => [MqRemoveListener q (UpdateSizeOf (self (this w)))]
            | None => []
            end
         ++ [AppDestroy (app_id a)]
    /\ last (trace w') = Some (AppDestroy (app_id a)).
Proof.
  intros [Ha Hroot]. open_world w. cbn in Ha, Hroot. subst. destruct a.
  destruct raf0, renderOnComponentChange0, _mediaQuery0 as [q|]; exec;
    rewrite <- ?app_assoc;
    (do 2 eexists; split; [reflexivity |]; split; [reflexivity |];
     split; [reflexivity |]);
    rewrite ?app_assoc; apply last_snoc.
Qed.

(** X14. The life of a stage, whatever the re-renders in between (any
    number, returning or throwing): one application is constructed and one
    root container created on its stage; [onMount] is called with it; the
    media query and the window listener are set up as the mount-time props
    ask; on unmount the [onUnmount] of the current props is called with the
    application, the listeners set up at mount are removed, and the same
    application is destroyed, once, as the last call of all.  No other
    lifecycle call is ever made. *)
Theorem lifecycle_calls (me : nat) (p : Props) (canvas : value)
    (win : Window) (next : nat) (ps : list Props) :
  let w1 := final (componentDidMount (initial_World me p canvas win next)) in
  let w2 := final (updates ps w1) in
  let w3 := final (componentWillUnmount w2) in
  returns (componentWillUnmount w2) = true
  /\ List.filter lifecycle_event (trace w3)
     = [NewApplication next (application_config p canvas);
        CreateContainer (1 + next) (4 + next);
        InjectDevtools;
        CallOnMount (onMount p) next]
       ++ (if watches_pixel_ratio p win
           then [MatchMedia (5 + next);
                 MqAddListener (5 + next) (UpdateSizeOf me)]
           else [])
       ++ (if renderOnComponentChange p && negb (raf p)
           then [AddEventListener REQUEST_RENDER (RenderStageOf me)]
           else [])
       ++ [CallOnUnmount (onUnmount (props (this w2))) (Some next);
           RemoveEventListener REQUEST_RENDER (RenderStageOf me)]
       ++ (if watches_pixel_ratio p win
           then [MqRemoveListener (5 + next) (UpdateSizeOf me)]
           else [])
       ++ [AppDestroy next]
  /\ last (trace w3) = Some (AppDestroy next).
Proof.
  intros w1 w2 w3.
  destruct (mount_lifecycle me p canvas win next)
    as (Hm1 & Hid & _ & Hq1 & Ht1).
  fold w1 in Hm1, Hid, Hq1, Ht1.
  set (a1 := default example_app (app (this w1))) in *.
  destruct (updates_steady ps w1 a1 _ Hm1) as (Hs2 & _ & a2 & Hm2).
  fold w2 in Hs2, Hm2.
  pose proof (keeps_updates_fixed ps w1) as Hfix. fold w2 in Hfix.
  unfold fixed_at_mount in Hfix. injection Hfix as _ _ Hq2 _ _ Happ Ht2.
  assert (Hid2 : app_id a2 = next).
  { destruct Hm1 as [Ha1 _], Hm2 as [Ha2 _]. rewrite Ha1, Ha2 in Happ.
    cbn in Happ. injection Happ as Hi _. congruence. }
  assert (Hme : self (this w2) = me).
  { rewrite Hs2.
    destruct (mount_listeners (initial_World me p canvas win next))
      as (_ & Hs & _). exact Hs. }
  destruct (unmount_lifecycle w2 a2 _ Hm2) as (w' & es & E & T & Hes & Hl).
  subst w3. rewrite E. cbn [final returns].
  split; [reflexivity |]. split; [| by rewrite Hl, Hid2].
  rewrite T, List.filter_app, Ht2, Ht1, Hes, Hq2, Hq1, Hme, Hid2.
  rewrite <- !app_assoc. do 3 f_equal.
  by destruct (watches_pixel_ratio p win).
Qed.

(** ** The reconciliation core *)

Import Reconciler.

Lemma E_bind_run {A B} (m : E A) (k : A -> E B) (e : Engine) :
  (m ≫= k) e = k (m e).1 (m e).2.
Proof. unfold mbind, E_bind. by destruct (m e). Qed.

Lemma mirrors_unfold R k' p' n key' hs k p key ds :
  mirrors R (Inst k' p' n key' hs) (Desc k p key ds)
  = bool_decide (k' = k) && R k p' p && mirrors_list R hs ds.
Proof. reflexivity. Qed.

(** *** The snapshot that [applyProps] returns *)

Lemma apply_one_lookup (ad : Adapter) (kind : string) (h : nat)
    (snapshot : object) (c : string * option value) (e : Engine) (k : string) :
  (apply_one ad kind h snapshot c e).1 !! k
  = if bool_decide (k = c.1) && recognizes ad k then c.2 else snapshot !! k.
Proof.
  unfold apply_one. destruct c as [k' v]. cbn [fst snd].
  case_bool_decide as Hk; cbn [andb].
  - subst k'. destruct (recognizes ad k); rewrite E_bind_run; cbn; [| done].
    unfold applied_change. cbn [fst snd]. destruct v as [v|].
    + apply lookup_insert_eq.
    + apply lookup_delete_eq.
  - destruct (recognizes ad k'); rewrite E_bind_run; cbn; [| done].
    unfold applied_change. cbn [fst snd]. destruct v as [v|].
    + by apply lookup_insert_ne.
    + by apply lookup_delete_ne.
Qed.

Lemma fold_each_cons {A B} (f : B -> A -> E B) (b : B) (x : A) (l : list A)
    (e : Engine) :
  fold_each f b (x :: l) e = fold_each f (f b x e).1 l (f b x e).2.
Proof. cbn [fold_each]. by rewrite E_bind_run. Qed.

Lemma fold_apply_other (ad : Adapter) (kind : string) (h : nat)
    (cs : list (string * option value)) (k : string) :
  k ∉ cs.*1 ->
  forall snapshot e,
    (fold_each (apply_one ad kind h) snapshot cs e).1 !! k = snapshot !! k.
Proof.
  induction cs as [|c cs IH]; intros Hk snapshot e; [done |].
  rewrite fold_each_cons. rewrite fmap_cons, not_elem_of_cons in Hk.
  destruct Hk as [Hne Hk]. rewrite (IH Hk), apply_one_lookup.
  by rewrite bool_decide_eq_false_2.
Qed.

Lemma fold_apply_changed (ad : Adapter) (kind : string) (h : nat)
    (cs : list (string * option value)) (k : string) (v : option value) :
  NoDup cs.*1 -> (k, v) ∈ cs ->
  forall snapshot e,
    (fold_each (apply_one ad kind h) snapshot cs e).1 !! k
    = if recognizes ad k then v else snapshot !! k.
Proof.
  induction cs as [|c cs IH]; intros Hnd Hin snapshot e.
  - by apply elem_of_nil in Hin.
  - rewrite fold_each_cons. rewrite fmap_cons in Hnd.
    apply NoDup_cons in Hnd as [Hc Hnd]. apply elem_of_cons in Hin as [<- | Hin].
    + rewrite (fold_apply_other _ _ _ _ _ Hc), apply_one_lookup. cbn [fst snd].
      by rewrite bool_decide_eq_true_2.
    + rewrite (IH Hnd Hin), apply_one_lookup.
      rewrite bool_decide_eq_false_2; [done |].
      intros ->. apply Hc. apply list_elem_of_fmap. by exists (c.1, v).
Qed.

(** Name by name, the snapshot after [applyProps] holds the new value under
    a name the adapter recognizes and the previous one under any other. *)
Lemma applyProps_lookup (ad : Adapter) (kind : string) (h : nat)
    (prev next : object) (e : Engine) (k : string) :
  (applyProps ad kind h prev next e).1 !! k
  = if recognizes ad k then next !! k else prev !! k.
Proof.
  unfold applyProps, prop_changes.
  set (D := merge (fun a b : option value =>
                     if bool_decide (a = b) then None else Some b) prev next).
  assert (HD : D !! k = if bool_decide (prev !! k = next !! k) then None
                        else Some (next !! k)).
  { subst D. rewrite lookup_merge. unfold diag_None.
    by destruct (prev !! k), (next !! k). }
  case_bool_decide as Heq.
  - rewrite fold_apply_other.
    + rewrite Heq. by destruct (recognizes ad k).
    + intros Hin. apply list_elem_of_fmap in Hin as ([k' v] & -> & Hin).
      apply elem_of_map_to_list in Hin. cbn in HD. congruence.
  - apply fold_apply_changed.
    + apply NoDup_fst_map_to_list.
    + by apply elem_of_map_to_list.
Qed.

Lemma forallb_Object_keys (P : string -> bool) (o : object) :
  forallb P (Object_keys o) = true
  <-> forall k, is_Some (o !! k) -> P k = true.
Proof.
  rewrite forallb_forall. split.
  - intros H k Hk. apply H, list_elem_of_In, elem_of_Object_keys, Hk.
  - intros H k Hk. apply H, elem_of_Object_keys, list_elem_of_In, Hk.
Qed.

Lemma forallb_Object_keys_empty (P : string -> bool) :
  forallb P (Object_keys ∅) = true.
Proof.
  apply forallb_Object_keys. intros k [v Hv]. by rewrite lookup_empty in Hv.
Qed.

Lemma recognized_part_lookup (ad : Adapter) (p : object) (k : string) :
  recognized_part ad p !! k = if recognizes ad k then p !! k else None.
Proof.
  unfold recognized_part. apply option_eq. intros v.
  rewrite map_lookup_filter_Some. cbn.
  destruct (recognizes ad k); intuition congruence.
Qed.

(** With nothing but recognized names in the previous snapshot, the new
    snapshot is the recognized part of the new props. *)
Lemma applyProps_snapshot (ad : Adapter) (kind : string) (h : nat)
    (prev next : object) (e : Engine) :
  forallb (recognizes ad) (Object_keys prev) = true ->
  (applyProps ad kind h prev next e).1 = recognized_part ad next.
Proof.
  intros Hprev. apply map_eq. intros k.
  rewrite applyProps_lookup, recognized_part_lookup.
  destruct (recognizes ad k) eqn:Hk; [done |].
  destruct (prev !! k) as [v|] eqn:Hv; [| done].
  rewrite forallb_Object_keys in Hprev.
  rewrite Hprev in Hk; [done | by exists v].
Qed.

Lemma recognized_part_keys (ad : Adapter) (p : object) :
  forallb (recognizes ad) (Object_keys (recognized_part ad p)) = true.
Proof.
  apply forallb_Object_keys. intros k [v Hv].
  rewrite recognized_part_lookup in Hv. by destruct (recognizes ad k).
Qed.

Lemma recognized_part_all (ad : Adapter) (p : object) :
  forallb (recognizes ad) (Object_keys p) = true -> recognized_part ad p = p.
Proof.
  intros H. apply map_eq. intros k. rewrite recognized_part_lookup.
  destruct (recognizes ad k) eqn:Hk; [done |].
  destruct (p !! k) as [v|] eqn:Hv; [| done].
  rewrite forallb_Object_keys in H. rewrite H in Hk; [done | by exists v].
Qed.

(** *** Shape and snapshots after [reconcile] *)

Lemma mirrors_list_Forall2 R (hs : list HostInstance) (ds : list Descriptor) :
  mirrors_list R hs ds = true <-> Forall2 (fun h d => mirrors R h d = true) hs ds.
Proof.
  revert ds. induction hs as [|h hs IH]; intros [|d ds]; cbn; split;
    try done; try (by inversion 1).
  - intros H. apply andb_true_iff in H as [H1 H2]. constructor; [done |].
    by apply IH.
  - inversion 1; subst. apply andb_true_iff. split; [done |]. by apply IH.
Qed.

Lemma reconcile_children_reconciled (table : AdapterTable)
    (rec : Descriptor -> option HostInstance -> E (option HostInstance))
    (olds : list HostInstance) (news : list Descriptor) :
  forallb (only_recognized table) olds = true ->
  Forall (fun n => forall o e,
            from_option (fun h => only_recognized table h = true) True o ->
            reconciled table n (rec n o e).1) news ->
  forall ms i e,
    let cs := (reconcile_children rec olds news ms i e).1.*1 in
    forallb (only_recognized table) cs = true
    /\ (forallb (known table) news = true ->
        mirrors_list (recognized_of table) cs news = true).
Proof.
  intros Holds. induction 1 as [|n news Hn _ IH]; intros ms i e; [done |].
  cbn [reconcile_children]. rewrite !E_bind_run. cbv zeta.
  set (old := mjoin (head ms) ≫= (fun j => olds !! j)).
  assert (Hold : from_option (fun h => only_recognized table h = true) True old).
  { destruct old as [o|] eqn:Ho; [| done]. cbn.
    subst old. destruct (mjoin (head ms)) as [j|]; [| done]. cbn in Ho.
    rewrite forallb_forall in Holds. apply Holds, list_elem_of_In.
    by eapply list_elem_of_lookup_2. }
  destruct (Hn old e Hold) as [Hwf Hmir].
  destruct (rec n old e) as [r e1]. cbn [fst snd] in *.
  specialize (IH (tail ms) (S i) e1). cbv zeta in IH.
  destruct (reconcile_children rec olds news (tail ms) (S i) e1) as [rs e2].
  cbn [fst snd] in *. destruct IH as [IHwf IHmir].
  destruct r as [c|]; cbn.
  - cbn in Hwf. rewrite Hwf, IHwf. split; [done |].
    intros Hk. apply andb_true_iff in Hk as [Hk1 Hk2].
    destruct (Hmir Hk1) as (h & [= <-] & Hh). by rewrite Hh, IHmir.
  - split; [done |]. intros Hk. apply andb_true_iff in Hk as [Hk1 Hk2].
    by destruct (Hmir Hk1) as (h & [=] & _).
Qed.

Lemma reconcile_reconciled (table : AdapterTable) (N : Descriptor) :
  forall old parent e,
    from_option (fun h => only_recognized table h = true) True old ->
    reconciled table N (reconcile table N old parent e).1.
Proof.
  induction N as [kind props key news IH] using Descriptor_rect'.
  intros old parent e Hold.
  cbn [reconcile].
  destruct (table !! kind) as [ad|] eqn:Had.
  2:{ rewrite !E_bind_run. cbn [mret E_ret fst]. split; [done |].
      unfold known. cbn [every_node]. rewrite Had.
      rewrite bool_decide_eq_false_2; [done |]. by intros [? ?]. }
  assert (Hch : forall h, Forall (fun n => forall o e,
              from_option (fun h => only_recognized table h = true) True o ->
              reconciled table n (reconcile table n o h e).1) news).
  { intros h. apply Forall_forall. intros n Hin o e' Ho.
    rewrite Forall_forall in IH. by apply IH. }
  assert (Hk : known table (Desc kind props key news) = true ->
               forallb (known table) news = true).
  { unfold known. cbn [every_node]. intros H.
    by apply andb_true_iff in H as [_ H]. }
  destruct (match old with
            | Some o => if bool_decide (kind_of o = kind) then Some o else None
            | None => None
            end) as [[okind oprops h okey olds]|] eqn:Hreuse.
  - (* update in place *)
    assert (Ho : only_recognized table (Inst okind oprops h okey olds) = true
                 /\ okind = kind).
    { destruct old as [o|]; [| done]. case_bool_decide as Hkind; [| done].
      injection Hreuse as ->. by split. }
    destruct Ho as [Ho ->]. cbn [only_recognized] in Ho. rewrite Had in Ho.
    apply andb_true_iff in Ho as [Hprops Holds].
    rewrite !E_bind_run. cbn [mret E_ret fst].
    rewrite (applyProps_snapshot _ _ _ _ _ _ Hprops).
    match goal with
    | |- context [reconcile_children ?r olds news ?ms ?i ?e'] =>
        destruct (reconcile_children_reconciled table r olds news Holds
                    (Hch h) ms i e') as [Hwf Hmir]
    end.
    cbv zeta in Hwf, Hmir. split.
    + cbn [from_option only_recognized]. rewrite Had.
      by rewrite recognized_part_keys, Hwf.
    + intros Hkn. eexists. split; [reflexivity |].
      rewrite mirrors_unfold. unfold recognized_of at 1. rewrite Had.
      rewrite !bool_decide_eq_true_2 by reflexivity. by apply Hmir, Hk.
  - (* create *)
    rewrite !E_bind_run. cbn [mret E_ret fst].
    rewrite (applyProps_snapshot _ _ _ _ _ _ (forallb_Object_keys_empty _)).
    match goal with
    | |- context [reconcile_children ?r [] news ?ms ?i ?e'] =>
        destruct (reconcile_children_reconciled table r [] news eq_refl
                    (Hch (alloc (from_option (delete parent) (mret tt) old e).2).1)
                    ms i e') as [Hwf Hmir]
    end.
    cbv zeta in Hwf, Hmir. split.
    + cbn [from_option only_recognized]. rewrite Had.
      by rewrite recognized_part_keys, Hwf.
    + intros Hkn. eexists. split; [reflexivity |].
      rewrite mirrors_unfold. unfold recognized_of at 1. rewrite Had.
      rewrite !bool_decide_eq_true_2 by reflexivity. by apply Hmir, Hk.
Qed.

(** *** Commits *)

Lemma commit_reconciled (table : AdapterTable) (root : RootHandle)
    (N : option Descriptor) (e : Engine) :
  root_recognized table root ->
  root_recognized table (commit table root N e).1
  /\ (on_tree (known table) N = true ->
      mirrors_tree (recognized_of table) (current (commit table root N e).1) N
      = true).
Proof.
  intros Hroot. destruct N as [n|]; cbn [commit on_tree from_option].
  - rewrite E_bind_run.
    destruct (reconcile_reconciled table n (current root) (container root) e
                Hroot) as [Hwf Hmir].
    destruct (reconcile table n (current root) (container root) e) as [r e1].
    cbn [fst snd] in *. destruct r as [c|].
    + rewrite !E_bind_run. cbn [mret E_ret fst current]. split; [exact Hwf |].
      intros Hk. by destruct (Hmir Hk) as (h & [= <-] & Hh).
    + cbn [mret E_ret fst current]. split; [done |].
      intros Hk. by destruct (Hmir Hk) as (h & [=] & _).
  - rewrite E_bind_run. by cbn.
Qed.

Lemma commits_recognized (table : AdapterTable)
    (trees : list (option Descriptor)) :
  forall root e,
    root_recognized table root ->
    root_recognized table (commits table root trees e).1.
Proof.
  induction trees as [|N trees IH]; intros root e Hroot; [done |].
  cbn [commits]. rewrite E_bind_run. apply IH.
  by apply commit_reconciled.
Qed.

(** *** From the recognized part to equality *)

Lemma mirrors_weaken (R R' : string -> object -> object -> bool)
    (P : string -> object -> bool) :
  (forall k cp p, P k p = true -> R k cp p = true -> R' k cp p = true) ->
  forall d h,
    every_node P d = true -> mirrors R h d = true -> mirrors R' h d = true.
Proof.
  intros HR. induction d as [k p key ds IH] using Descriptor_rect'.
  intros [k' p' n key' hs]. cbn [every_node]. rewrite !mirrors_unfold.
  intros HP Hm. apply andb_true_iff in HP as [HP Hds].
  apply andb_true_iff in Hm as [Hm Hhs]. apply andb_true_iff in Hm as [Hk Hp].
  rewrite Hk, (HR _ _ _ HP Hp). cbn [andb].
  clear Hk Hp HP. revert hs Hhs.
  induction IH as [|d ds Hd _ IHds]; intros [|h hs]; cbn; try done.
  intros Hhs. apply andb_true_iff in Hhs as [Hh Hhs].
  cbn in Hds. apply andb_true_iff in Hds as [Hd' Hds].
  by rewrite (Hd h Hd' Hh), (IHds Hds hs Hhs).
Qed.

Lemma mirrors_tree_weaken (R R' : string -> object -> object -> bool)
    (P : string -> object -> bool) :
  (forall k cp p, P k p = true -> R k cp p = true -> R' k cp p = true) ->
  forall d h,
    on_tree (every_node P) d = true -> mirrors_tree R h d = true ->
    mirrors_tree R' h d = true.
Proof.
  intros HR [d|] [h|]; cbn; try done. by apply mirrors_weaken.
Qed.

Lemma strict_eq_refl (v : value) : v <> VNum NaN -> strict_eq v v = true.
Proof.
  destruct v as [| |b|[|z]|s|r]; cbn; intros H; try done;
    by rewrite bool_decide_eq_true_2.
Qed.

Lemma shallow_equal_refl (p : object) :
  forallb (fun kv => negb (bool_decide (kv.2 = VNum NaN))) (map_to_list p)
  = true ->
  shallow_equal strict_eq p p = true.
Proof.
  intros Hnan. unfold shallow_equal. apply andb_true_iff. split.
  - apply forallb_Object_keys. intros k [v Hv]. rewrite Hv.
    apply strict_eq_refl.
    rewrite forallb_forall in Hnan.
    specialize (Hnan (k, v)). cbn in Hnan.
    rewrite negb_true_iff, bool_decide_eq_false in Hnan.
    apply Hnan, list_elem_of_In. by apply elem_of_map_to_list.
  - apply forallb_Object_keys. intros k Hk. by apply bool_decide_eq_true_2.
Qed.

(** *** Commits that report no error *)

Lemma each_errors {A} (f : A -> E unit) (l : list A) :
  (forall x e, errors (f x e).2 = errors e) ->
  forall e, errors (each f l e).2 = errors e.
Proof.
  intros Hf. induction l as [|x l IH]; intros e; [done |].
  cbn [each]. rewrite E_bind_run. by rewrite IH, Hf.
Qed.

Lemma delete_errors (parent : nat) (h : HostInstance) (e : Engine) :
  errors (delete parent h e).2 = errors e.
Proof. reflexivity. Qed.

Lemma fold_apply_errors (ad : Adapter) (kind : string) (h : nat)
    (cs : list (string * option value)) :
  Forall (fun c => recognizes ad c.1 = true) cs ->
  forall snapshot e,
    errors (fold_each (apply_one ad kind h) snapshot cs e).2 = errors e.
Proof.
  induction 1 as [|c cs Hc _ IH]; intros snapshot e; [done |].
  rewrite fold_each_cons, IH. unfold apply_one. by rewrite Hc.
Qed.

Lemma applyProps_errors (ad : Adapter) (kind : string) (h : nat)
    (prev next : object) (e : Engine) :
  forallb (recognizes ad) (Object_keys prev) = true ->
  forallb (recognizes ad) (Object_keys next) = true ->
  errors (applyProps ad kind h prev next e).2 = errors e.
Proof.
  rewrite !forallb_Object_keys. intros Hprev Hnext.
  apply fold_apply_errors, Forall_forall. intros [k v] Hin. cbn [fst].
  apply elem_of_map_to_list in Hin. rewrite lookup_merge in Hin.
  unfold diag_None in Hin.
  destruct (prev !! k) as [x|] eqn:Hx; [apply Hprev; by exists x |].
  destruct (next !! k) as [y|] eqn:Hy; [apply Hnext; by exists y | done].
Qed.

Lemma log_errors (cs : list call) (e : Engine) :
  errors (log cs e).2 = errors e.
Proof. reflexivity. Qed.

Lemma alloc_errors (e : Engine) : errors (alloc e).2 = errors e.
Proof. reflexivity. Qed.

Lemma from_option_delete_errors (parent : nat) (old : option HostInstance)
    (e : Engine) :
  errors (from_option (delete parent) (mret tt) old e).2 = errors e.
Proof. by destruct old. Qed.

Lemma reconcile_children_errors (table : AdapterTable)
    (rec : Descriptor -> option HostInstance -> E (option HostInstance))
    (olds : list HostInstance) (news : list Descriptor) :
  forallb (only_recognized table) olds = true ->
  Forall (fun n => forall o e,
            from_option (fun h => only_recognized table h = true) True o ->
            errors (rec n o e).2 = errors e) news ->
  forall ms i e,
    errors (reconcile_children rec olds news ms i e).2 = errors e.
Proof.
  intros Holds. induction 1 as [|n news Hn _ IH]; intros ms i e; [done |].
  cbn [reconcile_children]. rewrite !E_bind_run. cbv zeta.
  set (old := mjoin (head ms) ≫= (fun j => olds !! j)).
  assert (Hold : from_option (fun h => only_recognized table h = true) True old).
  { destruct old as [o|] eqn:Ho; [| done]. cbn.
    subst old. destruct (mjoin (head ms)) as [j|]; [| done]. cbn in Ho.
    rewrite forallb_forall in Holds. apply Holds, list_elem_of_In.
    by eapply list_elem_of_lookup_2. }
  specialize (Hn old e Hold).
  destruct (rec n old e) as [r e1]. cbn [fst snd] in *.
  specialize (IH (tail ms) (S i) e1).
  destruct (reconcile_children rec olds news (tail ms) (S i) e1) as [rs e2].
  cbn [fst snd] in *. destruct r; cbn; congruence.
Qed.

(** Against an old instance with recognized names only, reconciling a tree
    whose names are all recognized reports no error. *)
Lemma reconcile_errors (table : AdapterTable) (N : Descriptor) :
  recognized table N = true ->
  forall old parent e,
    from_option (fun h => only_recognized table h = true) True old ->
    errors (reconcile table N old parent e).2 = errors e.
Proof.
  induction N as [kind props key news IH] using Descriptor_rect'.
  unfold recognized. cbn [every_node]. intros HN old parent e Hold.
  apply andb_true_iff in HN as [Hprops Hnews].
  cbn [reconcile].
  destruct (table !! kind) as [ad|] eqn:Had; [| done].
  assert (Hch : forall h, Forall (fun n => forall o e,
              from_option (fun h => only_recognized table h = true) True o ->
              errors (reconcile table n o h e).2 = errors e) news).
  { intros h. apply Forall_forall. intros n Hin o e' Ho.
    rewrite Forall_forall in IH. apply IH; [done | | done].
    rewrite forallb_forall in Hnews. apply Hnews. by apply list_elem_of_In. }
  destruct (match old with
            | Some o => if bool_decide (kind_of o = kind) then Some o else None
            | None => None
            end) as [[okind oprops h okey olds]|] eqn:Hreuse.
  - assert (Ho : only_recognized table (Inst okind oprops h okey olds) = true
                 /\ okind = kind).
    { destruct old as [o|]; [| done]. case_bool_decide as Hkind; [| done].
      injection Hreuse as ->. by split. }
    destruct Ho as [Ho ->]. cbn [only_recognized] in Ho. rewrite Had in Ho.
    apply andb_true_iff in Ho as [Hoprops Holds].
    rewrite !E_bind_run. cbn [mret E_ret snd].
    rewrite log_errors, (reconcile_children_errors table _ _ _ Holds (Hch h)).
    rewrite each_errors by apply delete_errors.
    by apply applyProps_errors.
  - rewrite !E_bind_run. cbn [mret E_ret snd].
    rewrite applyProps_errors, log_errors;
      [| apply forallb_Object_keys_empty | exact Hprops].
    rewrite (reconcile_children_errors table _ [] _ eq_refl (Hch _)).
    by rewrite log_errors, alloc_errors, from_option_delete_errors.
Qed.

Lemma commit_errors (table : AdapterTable) (root : RootHandle)
    (N : option Descriptor) (e : Engine) :
  root_recognized table root ->
  on_tree (recognized table) N = true ->
  errors (commit table root N e).2 = errors e.
Proof.
  intros Hroot HN. destruct N as [n|]; cbn [commit on_tree from_option] in *.
  - rewrite E_bind_run.
    pose proof (reconcile_errors table n HN (current root) (container root) e
                  Hroot) as He.
    destruct (reconcile table n (current root) (container root) e) as [r e1].
    cbn [fst snd] in *. destruct r as [c|]; [| done].
    rewrite !E_bind_run. cbn [mret E_ret fst snd].
    by destruct (negb _).
  - rewrite E_bind_run. apply from_option_delete_errors.
Qed.

Lemma recognized_known (table : AdapterTable) (d : Descriptor) :
  recognized table d = true -> known table d = true.
Proof.
  induction d as [k p key ds IH] using Descriptor_rect'.
  unfold recognized, known. cbn [every_node]. intros H.
  apply andb_true_iff in H as [Hp Hds]. apply andb_true_iff. split.
  - destruct (table !! k) as [ad|]; [| done]. by apply bool_decide_eq_true_2.
  - rewrite forallb_forall in *. rewrite Forall_forall in IH.
    intros d Hd. apply IH; [by apply list_elem_of_In | by apply Hds].
Qed.




(** ** The model on the testable properties of the specification *)

(** Partial-failure isolation: of three siblings of which the second has no
    adapter, the first and the third are committed and the error is
    reported; the host tree then has two children where the descriptor tree
    has three. *)
Example partial_failure_leaves_the_siblings :
  let r := commit example_table example_root (Some example_tree)
                  example_engine in
  errors r.2 = [UnknownNodeKindError "Mesh"]
  /\ (fmap kind_of ∘ children_of <$> current r.1)
     = Some ["Sprite"; "Sprite"]
  /\ mirrors_tree (recognized_of example_table) (current r.1)
       (Some example_tree) = false.
Proof. vm_compute. repeat split; reflexivity. Qed.

(** A property that is [NaN] is committed, and differs from itself under
    [===]. *)
Example nan_property_is_not_strictly_equal :
  let N := Some (Desc "Sprite" (<["x" := VNum NaN]> ∅) None []) in
  let r := commit example_table example_root N example_engine in
  errors r.2 = []
  /\ mirrors_tree same_value (current r.1) N = true
  /\ mirrors_tree strictly_equal (current r.1) N = false.
Proof. vm_compute. repeat split; reflexivity. Qed.

(** No-op stability: committing the same tree twice makes no adapter call on
    the second pass. *)
Example second_pass_is_silent :
  let N := Some (Desc "Container" ∅ None
                   [Desc "Sprite" (<["x" := VNum (Fin 1)]> ∅) None []]) in
  let r1 := commit example_table example_root N example_engine in
  let r2 := commit example_table r1.1 N (mkEngine (next_handle r1.2) [] []) in
  calls r2.2 = [] /\ errors r2.2 = [].
Proof. vm_compute. split; reflexivity. Qed.

(** Keyed reorder preserves identity: the two instances are moved, not
    created again. *)
Example keyed_reorder_reuses_instances :
  let A := Desc "Sprite" ∅ (Some "1") [] in
  let B := Desc "Sprite" ∅ (Some "2") [] in
  let r1 := commit example_table example_root
                   (Some (Desc "Container" ∅ None [A; B])) example_engine in
  let r2 := commit example_table r1.1
                   (Some (Desc "Container" ∅ None [B; A]))
                   (mkEngine (next_handle r1.2) [] []) in
  (fmap nativeHandle ∘ children_of <$> current r1.1) = Some [11; 12]
  /\ (fmap nativeHandle ∘ children_of <$> current r2.1) = Some [12; 11]
  /\ calls r2.2 = [AttachChild 10 11 None; AttachChild 10 12 (Some 11)].
Proof. vm_compute. repeat split; reflexivity. Qed.

(** Teardown completeness: committing the empty tree detaches the root
    instance and disposes every instance once, children before parents. *)
Example unmount_disposes_children_first :
  let N := Some (Desc "Container" ∅ None
                   [Desc "Sprite" ∅ None []; Desc "Sprite" ∅ None []]) in
  let r1 := commit example_table example_root N example_engine in
  let r2 := commit example_table r1.1 None (mkEngine (next_handle r1.2) [] []) in
  current r2.1 = None
  /\ calls r2.2 = [DetachChild 1 10; Dispose 11; Dispose 12; Dispose 10].
Proof. vm_compute. split; reflexivity. Qed.
